(** * AdsorbAI physics engine: slab builder and adsorption-site engine

    A shallow embedding of [services/physicsEngine.ts] (the slab builder
    [generateSlabStructure] and the site engine [calculateAdsorptionPhysics]),
    of the tables of [constants.ts] and of the records of [types.ts],
    followed by the properties of the specification that concern them.

    Modelling conventions.
    - A JavaScript [number] is a real number ([R]): rounding of binary64
      arithmetic is not modelled.  Two values that are not real numbers are
      kept where the code can produce them from finite inputs:
      [Math.max()] of no arguments, which is [-Infinity] (type [xnum]), and
      the [NaN] of arithmetic on [undefined], which reaches the energies
      (type [number]).
    - A JavaScript string is a [string]; the two regular expressions of the
      parser are run by a small backtracking matcher ([Regex]).
    - A JavaScript object used as a dictionary is a [gmap string _] for its
      own properties.  A read [table[key]] at an arbitrary string is
      [Object_get]: it finds the own property, else the property every
      object literal inherits from [Object.prototype] (['constructor'],
      ['toString'], ...), else [undefined].  Where the key is the element
      symbol the parser returns, which is never the name of an inherited
      property ([parse_element_own]), the read is the lookup in the map.
    - [Math.random()] reads the next element of an ambient sequence
      [random : nat -> R]; the position in the sequence is threaded as state.
    - A thrown exception ends the computation with [Throw]. *)

From Stdlib Require Import Reals Lra Lia ZArith List String Ascii Permutation Sorted.
From stdpp Require Import base decidable option list strings pretty gmap.

Open Scope R_scope.

(** ** JavaScript numbers and [Math] *)

Module Js.

#[global] Instance Rlt_decision : RelDecision Rlt := Rlt_dec.
#[global] Instance Rgt_decision : RelDecision Rgt := Rgt_dec.
#[global] Instance Rle_decision : RelDecision Rle := Rle_dec.
#[global] Instance Rge_decision : RelDecision Rge := Rge_dec.
#[global] Instance Req_decision : EqDecision R := Req_dec_T.

(** A number that may be [-Infinity]. *)
Inductive xnum : Type :=
| NegInfinity : xnum
| Fin (r : R) : xnum.

(** [Math.max(...l)]: [-Infinity] when there is no argument. *)
Definition Math_max (l : list R) : xnum :=
  fold_left (fun m z =>
               match m with
               | NegInfinity => Fin z
               | Fin r => Fin (Rmax r z)
               end) l NegInfinity.

(** [m - d] and [m + d] for a finite [d]. *)
Definition xminus (m : xnum) (d : R) : xnum :=
  match m with NegInfinity => NegInfinity | Fin r => Fin (r - d) end.

Definition xplus (m : xnum) (d : R) : xnum :=
  match m with NegInfinity => NegInfinity | Fin r => Fin (r + d) end.

(** [z > m] for a finite [z]. *)
Definition gt_x (z : R) (m : xnum) : bool :=
  match m with NegInfinity => true | Fin r => bool_decide (z > r) end.

(** The real behind an [xnum]; only used where the value is finite. *)
Definition finite (m : xnum) : R :=
  match m with NegInfinity => 0 | Fin r => r end.

Definition Math_sqrt (x : R) : R := sqrt x.
Definition Math_abs (x : R) : R := Rabs x.

(** [Math.floor]. *)
Definition Math_floor (x : R) : Z := Int_part x.

(** Truncation towards zero, and the remainder operator [x % y], whose
    result has the sign of the dividend. *)
Definition trunc (x : R) : Z :=
  if decide (0 <= x) then Int_part x else (- Int_part (- x))%Z.

Definition rem (x y : R) : R := x - IZR (trunc (x / y)) * y.

(** [x.toFixed(2)]: the integer [n] nearest to [|x| * 100] (the larger one
    on a tie), printed with two decimals, after a minus sign when [x < 0]. *)
Definition toFixed2 (x : R) : string :=
  let sign := if decide (x < 0) then "-"%string else ""%string in
  let n := Z.to_N (Int_part (Rabs x * 100 + / 2)) in
  let whole := pretty (n `div` 100)%N in
  let cents := (n `mod` 100)%N in
  let frac := if (cents <? 10)%N then ("0" +:+ pretty cents)%string
              else pretty cents in
  (sign +:+ whole +:+ "." +:+ frac)%string.

(** [s.includes(sub)]. *)
Fixpoint includes (sub s : string) : bool :=
  String.prefix sub s ||
  match s with
  | EmptyString => false
  | String _ s' => includes sub s'
  end.

(** A number that may be [NaN]. *)
Inductive number : Type :=
| NaN : number
| Num (r : R) : number.

(** [undefined] read where a number is expected converts to [NaN]. *)
Definition ToNumber (v : option R) : number :=
  match v with Some r => Num r | None => NaN end.

(** Arithmetic: [NaN] as soon as an operand is [NaN]. *)
Definition number_plus (a b : number) : number :=
  match a, b with Num x, Num y => Num (x + y) | _, _ => NaN end.

Definition number_minus (a b : number) : number :=
  match a, b with Num x, Num y => Num (x - y) | _, _ => NaN end.

Definition number_times (a b : number) : number :=
  match a, b with Num x, Num y => Num (x * y) | _, _ => NaN end.

Definition number_abs (a : number) : number :=
  match a with Num x => Num (Math_abs x) | NaN => NaN end.

(** Comparisons: false as soon as an operand is [NaN]. *)
Definition number_lt (a b : number) : Prop :=
  match a, b with Num x, Num y => x < y | _, _ => False end.

Definition number_le (a b : number) : Prop :=
  match a, b with Num x, Num y => x <= y | _, _ => False end.

#[global] Instance number_lt_dec a b : Decision (number_lt a b).
Proof. destruct a, b; simpl; apply _. Defined.

#[global] Instance number_le_dec a b : Decision (number_le a b).
Proof. destruct a, b; simpl; apply _. Defined.

(** [x.toFixed(2)] *)
Definition number_toFixed2 (a : number) : string :=
  match a with Num x => toFixed2 x | NaN => "NaN"%string end.

(** The names of the properties of [Object.prototype], which every object
    literal inherits: eleven functions, and the accessor [__proto__], which
    answers [Object.prototype] itself. *)
Definition Object_prototype : list string :=
  [ "constructor"; "__defineGetter__"; "__defineSetter__"; "hasOwnProperty";
    "__lookupGetter__"; "__lookupSetter__"; "isPrototypeOf";
    "propertyIsEnumerable"; "toString"; "valueOf"; "__proto__";
    "toLocaleString" ]%string.

Definition inherited (key : string) : bool :=
  existsb (String.eqb key) Object_prototype.

(** What a read [table[key]] of an object literal with values in [A] finds:
    a value of the table, or the built-in of that name.  A built-in is a
    function or an object: it is truthy, and it has none of the fields of
    the records of the tables. *)
Inductive value (A : Type) : Type :=
| Own (a : A)
| Builtin (name : string).

Arguments Own {A} a.
Arguments Builtin {A} name.

(** [table[key]]; [None] is [undefined]. *)
Definition Object_get {A : Type} (table : gmap string A) (key : string)
  : option (value A) :=
  match table !! key with
  | Some a => Some (Own a)
  | None => if inherited key then Some (Builtin key) else None
  end.

(** [v.field] for what was read from a table of records: [undefined] on a
    built-in. *)
Definition field {A B : Type} (f : A -> B) (v : value A) : option B :=
  match v with Own a => Some (f a) | Builtin _ => None end.

End Js.

(** ** Regular expressions *)

Module Regex.

(** The fragment of the regular-expression language the parser uses. *)
Inductive regex : Type :=
| Eps                        (* the empty expression *)
| Chr (c : ascii)            (* a literal character *)
| Cls (lo hi : ascii)        (* a class [lo-hi] *)
| Cat (r1 r2 : regex)        (* r1 r2 *)
| Opt (r : regex)            (* r?  (greedy) *)
| Grp (r : regex).           (* ( r ), capturing *)

(** r{n} *)
Fixpoint rep (n : nat) (r : regex) : regex :=
  match n with
  | O => Eps
  | S n' => Cat r (rep n' r)
  end.

Definition in_class (lo hi c : ascii) : bool :=
  (nat_of_ascii lo <=? nat_of_ascii c)%nat &&
  (nat_of_ascii c <=? nat_of_ascii hi)%nat.

(** The part of [s] that was consumed to reach its suffix [s']. *)
Definition consumed (s s' : string) : string :=
  substring 0 (String.length s - String.length s') s.

(** Backtracking matcher in continuation-passing style: [run r s caps k]
    matches [r] at the head of [s] and passes the remaining input and the
    captures made so far to [k]; [None] makes it try the next alternative. *)
Fixpoint run {A : Type} (r : regex) (s : string) (caps : list string)
         (k : string -> list string -> option A) : option A :=
  match r with
  | Eps => k s caps
  | Chr c =>
      match s with
      | String c' s' => if Ascii.eqb c c' then k s' caps else None
      | EmptyString => None
      end
  | Cls lo hi =>
      match s with
      | String c' s' => if in_class lo hi c' then k s' caps else None
      | EmptyString => None
      end
  | Cat r1 r2 => run r1 s caps (fun s1 caps1 => run r2 s1 caps1 k)
  | Opt r1 =>
      match run r1 s caps k with
      | Some x => Some x
      | None => k s caps
      end
  | Grp r1 => run r1 s caps (fun s' caps' => k s' (caps' ++ [consumed s s']))
  end.

(** A match at the head of [s]: the match array [m[0]; m[1]; ...]. *)
Definition match_here (r : regex) (s : string) : option (list string) :=
  run r s [] (fun s' caps => Some (consumed s s' :: caps)).

(** The leftmost match of [r] in [s]. *)
Fixpoint search (r : regex) (s : string) : option (list string) :=
  match match_here r s with
  | Some m => Some m
  | None =>
      match s with
      | EmptyString => None
      | String _ s' => search r s'
      end
  end.

(** A pattern is a regular expression, possibly anchored by [^]. *)
Record pattern : Type := { anchored : bool; body : regex }.

(** [s.match(p)] for a pattern without the [g] flag: [null] is [None]. *)
Definition String_match (s : string) (p : pattern) : option (list string) :=
  if anchored p then match_here (body p) s else search (body p) s.

(** [s.replace(/[lo-hi]/g, '')] *)
Fixpoint remove_class (lo hi : ascii) (s : string) : string :=
  match s with
  | EmptyString => EmptyString
  | String c s' =>
      if in_class lo hi c then remove_class lo hi s'
      else String c (remove_class lo hi s')
  end.

End Regex.

(** ** The tables of [constants.ts] *)

Module Constants.

Definition CPK_COLORS : gmap string string :=
  list_to_map
    [ ("H", "#FFFFFF"); ("C", "#909090"); ("N", "#3050F8"); ("O", "#FF0D0D");
      ("F", "#90E050"); ("Na", "#AB5CF2"); ("Mg", "#8AFF00"); ("Al", "#BFA6A6");
      ("Si", "#F0C8A0"); ("P", "#FF8000"); ("S", "#FFFF30"); ("Cl", "#1FF01F");
      ("K", "#8F40D4"); ("Ca", "#3DFF00"); ("Ti", "#BFC2C7"); ("Fe", "#E06633");
      ("Ni", "#50D050"); ("Cu", "#C88033"); ("Zn", "#7D80B0"); ("Au", "#FFD123");
      ("Ag", "#C0C0C0"); ("Pt", "#D0D0E0"); ("Pd", "#006985");
      (* Default fallback *)
      ("X", "#FF00FF") ]%string.

Definition ATOMIC_RADII : gmap string R :=
  list_to_map
    [ ("H", 0.37); ("C", 0.77); ("N", 0.75); ("O", 0.73);
      ("F", 0.71); ("Na", 1.54); ("Mg", 1.30); ("Al", 1.18);
      ("Si", 1.11); ("P", 1.06); ("S", 1.02); ("Cl", 0.99);
      ("K", 1.96); ("Ca", 1.74); ("Ti", 1.36); ("Fe", 1.25);
      ("Ni", 1.21); ("Cu", 1.28); ("Zn", 1.31); ("Au", 1.44);
      ("Ag", 1.44); ("Pt", 1.38); ("Pd", 1.37);
      ("X", 1.0) ]%string.

(** Physical properties for deterministic generation. *)
Record ElementData : Type := {
  latticeConstant : R;      (* in Angstroms (FCC) *)
  mpId : string;
  formationEnergy : R;      (* eV/atom *)
  bandGap : R;              (* eV *)
  symmetry : string;
  electronegativity : R     (* Pauling scale *)
}.

Definition mkElement (a : R) (mp : string) (en : R) : ElementData :=
  {| latticeConstant := a; mpId := mp; formationEnergy := 0.0; bandGap := 0.0;
     symmetry := "Fm-3m"; electronegativity := en |}.

Definition ELEMENT_PROPERTIES : gmap string ElementData :=
  list_to_map
    [ ("Au", mkElement 4.078 "mp-81" 2.54);
      ("Ag", mkElement 4.085 "mp-124" 1.93);
      ("Cu", mkElement 3.615 "mp-30" 1.90);
      ("Pt", mkElement 3.924 "mp-126" 2.28);
      ("Pd", mkElement 3.890 "mp-2" 2.20);
      ("Ni", mkElement 3.524 "mp-23" 1.91);
      ("Al", mkElement 4.049 "mp-134" 1.61) ]%string.

End Constants.

(** ** The records of [types.ts] *)

Module Types.

Import Js.

(** Optional fields ([color?], [radius?], ...) are [option]s. *)
Record Atom : Type := {
  id : nat;
  element : string;
  x : R;
  y : R;
  z : R;
  color : option string;
  radius : option R
}.

Inductive SiteType : Type := Top | Bridge | Hollow | fcc | hcp.

Record AdsorptionSite : Type := {
  site_id : string;
  type : SiteType;
  coordinates : R * R * R;
  energy : number;
  site_description : string
}.

Record MaterialStructure : Type := {
  formula : string;
  description : string;
  structure_mpId : option string;
  millerIndex : option string;
  atoms : list Atom;
  latticeVectors : option (list (list R));
  structure_formationEnergy : option R;
  structure_bandGap : option R;
  structure_symmetry : option string
}.

Record AnalysisResult : Type := {
  sites : list AdsorptionSite;
  summary : string;
  potentialUsed : string;
  calculationTime : string;
  systemId : option string;
  model : option string
}.

End Types.

(** ** The physics engine *)

Module PhysicsEngine.

Import Js Regex Constants Types.

(** [v || d] on a string and on a number read from a table: the empty
    string and zero are falsy, like [undefined]. *)
Definition or_string (v : option string) (d : string) : string :=
  match v with
  | Some s => if decide (s = ""%string) then d else s
  | None => d
  end.

Definition or_number (v : option R) (d : R) : R :=
  match v with
  | Some r => if decide (r = 0) then d else r
  | None => d
  end.

#[global] Instance ElementData_inhabited : Inhabited ElementData :=
  populate (mkElement 0 "" 0).

(** [ELEMENT_PROPERTIES[element] || ELEMENT_PROPERTIES['Cu']]: a record and
    a built-in are truthy, [undefined] is not. *)
Definition lookup_or_Cu (element : string) : value ElementData :=
  match Object_get ELEMENT_PROPERTIES element with
  | Some v => v
  | None => Own (ELEMENT_PROPERTIES !!! "Cu"%string)
  end.

(** *** 1. Structure generation *)

(** [props] in the builder.  There [element] is the symbol the parser
    returns, an upper-case letter possibly followed by a lower-case one, and
    no built-in has such a name ([parse_element_own]): what is read is a
    record of the table, whose fields are numbers and strings.  The other
    case is not a record and has no real lattice constant; it does not occur
    in the builder. *)
Definition props_or_Cu (element : string) : ElementData :=
  match lookup_or_Cu element with
  | Own p => p
  | Builtin _ => inhabitant
  end.

(** In [createAtom] too, [element] is the symbol the parser returns: both
    reads find an entry of the table or [undefined]. *)
Definition createAtom (element : string) (x y z : R) (idOffset : nat) : Atom :=
  {| id := idOffset;
     element := element;
     x := x;
     y := y;
     z := z;
     color := Some (or_string (CPK_COLORS !! element) "#ff00ff");
     radius := Some (or_number (ATOMIC_RADII !! element) 1.0) |}.

(** [for (let i = 0; i < n; i++) body]: the loop body transforms the
    variables the loop assigns to. *)
Definition for_range {S : Type} (n : nat) (body : nat -> S -> S) (s : S) : S :=
  fold_left (fun s i => body i s) (seq 0 n) s.

(** /^([A-Z][a-z]?)/ *)
Definition element_pattern : pattern :=
  {| anchored := true;
     body := Grp (Cat (Cls "A" "Z") (Opt (Cls "a" "z"))) |}.

(** /\((\d{3})\)/ *)
Definition face_pattern : pattern :=
  {| anchored := false;
     body := Cat (Chr "(") (Cat (Grp (rep 3 (Cls "0" "9"))) (Chr ")")) |}.

(** [m[1]] of a match array. *)
Definition group1 (m : list string) : string := nth 1 m ""%string.

(** The query parser: "Au(111)" -> element Au, face 111. *)
Definition parse_element (query : string) : string :=
  match String_match query element_pattern with
  | Some m => group1 m
  | None => "Cu"%string
  end.

Definition parse_face (query : string) : string :=
  match String_match query face_pattern with
  | Some m => group1 m
  | None => "111"%string
  end.

(** The (111) branch: lattice vectors and atoms of the 3x3x4 slab. *)
Definition fcc111 (element : string) (a : R) : list Atom * list (list R) :=
  let x_dist := a / Math_sqrt 2 in
  let y_dist := a * Math_sqrt 6 / 2 in
  let z_layer_spacing := a / Math_sqrt 3 in
  let nx := 3%nat in
  let ny := 3%nat in
  let nz := 4%nat in
  let latticeVectors :=
    [ [x_dist * INR nx; 0; 0];
      [0; y_dist * INR ny; 0];
      [0; 0; z_layer_spacing * INR nz + 10] ] in
  let '(atoms, _) :=
    for_range nz (fun k =>
      for_range ny (fun j =>
        for_range nx (fun i '(atoms, id) =>
          (* ABC stacking; in the B layer the source first assigns
             shiftY = (1/6) * y_dist * 3 and then overwrites it *)
          let shiftX :=
            if (k mod 3 =? 1)%nat then 0.5 * x_dist
            else if (k mod 3 =? 2)%nat then 0
            else 0 in
          let shiftY :=
            if (k mod 3 =? 1)%nat then y_dist / 6
            else if (k mod 3 =? 2)%nat then 2 * (y_dist / 6)
            else 0 in
          let x := INR i * x_dist + shiftX in
          let y := INR j * y_dist + shiftY in
          let z := INR k * z_layer_spacing in
          let atoms :=
            atoms ++ [createAtom element (rem x (x_dist * INR nx))
                                 (rem y (y_dist * INR ny)) z id] in
          let id := S id in
          (* rectangular basis: the second atom of the cell *)
          let atoms :=
            atoms ++ [createAtom element (rem (x + x_dist / 2) (x_dist * INR nx))
                                 (rem (y + y_dist / 2) (y_dist * INR ny)) z id] in
          let id := S id in
          (atoms, id))))
      ([], 0%nat) in
  (atoms, latticeVectors).

(** The other branch (fcc100): a 4x4x4 slab in AB stacking. *)
Definition fcc100 (element : string) (a : R) : list Atom * list (list R) :=
  let d := a / Math_sqrt 2 in
  let nx := 4%nat in
  let ny := 4%nat in
  let nz := 4%nat in
  let latticeVectors :=
    [ [d * INR nx; 0; 0];
      [0; d * INR ny; 0];
      [0; 0; d * Math_sqrt 2 * 0.5 * INR nz + 10] ] in
  let layerSpacing := a / 2 in
  let '(atoms, _) :=
    for_range nz (fun k =>
      for_range ny (fun j =>
        for_range nx (fun i '(atoms, id) =>
          let x := INR i * d in
          let y := INR j * d in
          (* shift odd layers *)
          let x := if (k mod 2 =? 1)%nat then x + d / 2 else x in
          let y := if (k mod 2 =? 1)%nat then y + d / 2 else y in
          (atoms ++ [createAtom element x y (INR k * layerSpacing) id], S id))))
      ([], 0%nat) in
  (atoms, latticeVectors).

Definition generateSlabStructure (query : string) : MaterialStructure :=
  let element := parse_element query in
  let face := parse_face query in
  (* mock Materials Project lookup *)
  let props := props_or_Cu element in
  let a := latticeConstant props in
  let '(atoms, latticeVectors) :=
    if decide (face = "111"%string) then fcc111 element a
    else fcc100 element a in
  {| formula := element;
     structure_mpId := Some (mpId props);
     millerIndex := Some ("(" +:+ face +:+ ")")%string;
     description := (element +:+ " " +:+ face +:+ " Surface Slab (Simulated ASE)")%string;
     structure_formationEnergy := Some (formationEnergy props);
     structure_bandGap := Some (bandGap props);
     structure_symmetry := Some (symmetry props);
     atoms := atoms;
     latticeVectors := Some latticeVectors |}.

(** *** 2. Adsorption analysis *)

(** What a computation can throw: the [TypeError] the runtime raises when a
    property of [undefined] is read, or an [Error] thrown by a [throw]
    statement of the program. *)
Inductive exn : Type :=
| TypeError (msg : string)
| JsError (msg : string).

(** The outcome of a computation started at position [n] of the random
    sequence: a value and the next position, or an exception. *)
Inductive outcome (A : Type) : Type :=
| Return (a : A) (next : nat)
| Throw (e : exn).

Arguments Return {A} a next.
Arguments Throw {A} e.

Definition M (A : Type) : Type := nat -> outcome A.

Definition ret {A : Type} (a : A) : M A := fun n => Return a n.

Definition throw {A : Type} (e : exn) : M A := fun _ => Throw e.

Definition bind {A B : Type} (c : M A) (k : A -> M B) : M B :=
  fun n =>
    match c n with
    | Return a n' => k a n'
    | Throw e => Throw e
    end.

Notation "x <- c ;; k" := (bind c (fun x => k))
  (at level 100, c at next level, right associativity).

(** [for (const a of l) s = body(s, a)] with effects. *)
Fixpoint foldM {A S : Type} (body : S -> A -> M S) (l : list A) (s : S) : M S :=
  match l with
  | [] => ret s
  | a :: l' => s' <- body s a ;; foldM body l' s'
  end.

(** [for (let i = lo; i < hi; i++) s = body(i, s)] with effects. *)
Definition for_rangeM {S : Type} (lo hi : nat) (body : nat -> S -> M S) (s : S) : M S :=
  foldM (fun s i => body i s) (seq lo (hi - lo)) s.

(** [l.forEach(site => ...)] where the callback assigns to the element. *)
Fixpoint mapM {A B : Type} (f : A -> M B) (l : list A) : M (list B) :=
  match l with
  | [] => ret []
  | a :: l' => b <- f a ;; bs <- mapM f l' ;; ret (b :: bs)
  end.

(** Reading property [prop] of [l[i]]: a [TypeError] when [l[i]] is
    [undefined].  The element is returned for the reads that follow. *)
Definition element_at {A : Type} (l : list A) (i : nat) (prop : string) : M A :=
  match l !! i with
  | Some a => ret a
  | None =>
      throw (TypeError ("Cannot read properties of undefined (reading '"
                          +:+ prop +:+ "')")%string)
  end.

(** [l.sort(cmp)]: the stable sort of ECMAScript; [cmp a b > 0] puts [b]
    before [a], and a comparison that answers [NaN] counts as 0. *)
Fixpoint sort_insert {A : Type} (cmp : A -> A -> number) (a : A) (l : list A)
  : list A :=
  match l with
  | [] => [a]
  | b :: l' =>
      if decide (number_lt (Num 0) (cmp a b)) then b :: sort_insert cmp a l'
      else a :: l
  end.

Definition Array_sort {A : Type} (cmp : A -> A -> number) (l : list A) : list A :=
  fold_right (sort_insert cmp) [] l.

(** [l.slice(0, n)] *)
Definition slice0 {A : Type} (n : nat) (l : list A) : list A := firstn n l.

#[global] Instance SiteType_eq_dec : EqDecision SiteType.
Proof. solve_decision. Defined.

Definition SiteType_to_string (t : SiteType) : string :=
  match t with
  | Top => "Top" | Bridge => "Bridge" | Hollow => "Hollow"
  | fcc => "fcc" | hcp => "hcp"
  end.

Definition set_energy (site : AdsorptionSite) (e : number) : AdsorptionSite :=
  {| site_id := site_id site;
     type := type site;
     coordinates := coordinates site;
     energy := e;
     site_description := site_description site |}.

Section Analysis.

(** The ambient random source: the [n]-th call of [Math.random()] returns
    [random n]. *)
Variable random : nat -> R.

Definition Math_random : M R := fun n => Return (random n) (S n).

(** 1. Surface atoms (highest z). *)
Definition surface_maxY (structure : MaterialStructure) : xnum :=
  Math_max (map z (atoms structure)).

Definition surface_atoms (structure : MaterialStructure) : list Atom :=
  List.filter (fun a => gt_x (z a) (xminus (surface_maxY structure) 1.5))
              (atoms structure).

(** 2.A On-top sites, directly above atoms. *)
Definition top_site (atom : Atom) : AdsorptionSite :=
  {| site_id := ("top-" +:+ pretty (id atom))%string;
     type := Top;
     coordinates := (x atom, y atom, z atom + 2.0);
     energy := Num 0;
     site_description := ("On-top of atom #" +:+ pretty (id atom))%string |}.

Definition top_sites (surfaceAtoms : list Atom) (sites : list AdsorptionSite)
  : M (list AdsorptionSite) :=
  foldM (fun sites atom =>
           r <- Math_random ;;
           (* only pick a few *)
           if decide (r > 0.7) then ret sites
           else ret (sites ++ [top_site atom]))
        surfaceAtoms sites.

(** 2.B Bridge sites, midpoint between two atoms. *)
Definition distance (a1 a2 : Atom) : R :=
  Math_sqrt ((x a1 - x a2) ^ 2 + (y a1 - y a2) ^ 2 + (z a1 - z a2) ^ 2).

Definition bridge_site (a1 a2 : Atom) : AdsorptionSite :=
  {| site_id := ("brg-" +:+ pretty (id a1) +:+ "-" +:+ pretty (id a2))%string;
     type := Bridge;
     coordinates := ((x a1 + x a2) / 2, (y a1 + y a2) / 2, (z a1 + z a2) / 2 + 1.8);
     energy := Num 0;
     site_description := "Bridge site" |}.

Definition bridge_sites (surfaceAtoms : list Atom) (sites : list AdsorptionSite)
  : M (list AdsorptionSite) :=
  for_rangeM 0 (length surfaceAtoms) (fun i =>
    for_rangeM (i + 1) (length surfaceAtoms) (fun j sites =>
      a1 <- element_at surfaceAtoms i "x" ;;
      a2 <- element_at surfaceAtoms j "x" ;;
      let dist := distance a1 a2 in
      if bool_decide (dist < 3.0) && bool_decide (dist > 2.0) then
        r <- Math_random ;;
        (* downsample *)
        if decide (r > 0.8) then ret (sites ++ [bridge_site a1 a2])
        else ret sites
      else ret sites))
    sites.

(** 2.C Hollow sites: the fallback when fewer than five sites were found. *)
Definition hollow_site (a0 : Atom) (maxY : xnum) : AdsorptionSite :=
  {| site_id := "hollow-1";
     type := Hollow;
     coordinates := (x a0 + 1.2, y a0 + 0.8, finite (xplus maxY 1.5));
     energy := Num 0;
     site_description := "fcc hollow" |}.

Definition hollow_sites (surfaceAtoms : list Atom) (maxY : xnum)
           (sites : list AdsorptionSite) : M (list AdsorptionSite) :=
  if (length sites <? 5)%nat then
    a0 <- element_at surfaceAtoms 0 "x" ;;
    ret (sites ++ [hollow_site a0 maxY])
  else ret sites.

(** 3. Energies (heuristic model). *)
Definition adsorbate_electronegativity (adsorbate : string) : R :=
  if includes "O" adsorbate then 3.44
  else if includes "N" adsorbate then 3.04
  else 2.55.

Definition site_factor (t : SiteType) : R :=
  let siteFactor := 0 in
  let siteFactor := if decide (t = Top) then 0.5 else siteFactor in
  let siteFactor := if decide (t = Bridge) then -0.2 else siteFactor in
  let siteFactor := if decide (t = Hollow) then -0.8 else siteFactor in
  siteFactor.

(** [structure.formula] is any string: the read of the table can find a
    built-in, whose [electronegativity] is [undefined]. *)
Definition base_binding (structure : MaterialStructure) (adsorbate : string)
  : number :=
  let bulkElem := formula structure in
  let adsorbateElem := remove_class "0" "9" adsorbate in (* not read afterwards *)
  let props := lookup_or_Cu bulkElem in
  let enMetal := field electronegativity props in
  (* rough EN for the adsorbate *)
  let enAds := adsorbate_electronegativity adsorbate in
  let deltaEn := number_abs (number_minus (ToNumber enMetal) (Num enAds)) in
  number_times (Num (-0.5)) deltaEn.

Definition update_energies (baseBinding : number) (sites : list AdsorptionSite)
  : M (list AdsorptionSite) :=
  mapM (fun site =>
          let siteFactor := site_factor (type site) in
          (* noise that simulates relaxation *)
          r <- Math_random ;;
          let relaxation := (r - 0.5) * 0.2 in
          ret (set_energy site
                 (number_plus (number_plus baseBinding (Num siteFactor))
                              (Num relaxation))))
       sites.

(** [sortedSites[0]?.type] and [sortedSites[0]?.energy.toFixed(2)] inside
    the template string. *)
Definition summary_of (count : nat) (best : option AdsorptionSite) : string :=
  let best_type :=
    match best with
    | Some s => SiteType_to_string (type s)
    | None => "undefined"%string
    end in
  let best_energy :=
    match best with
    | Some s => number_toFixed2 (energy s)
    | None => "undefined"%string
    end in
  ("Analysis performed using EquiformerV2 simulation. Found "
     +:+ pretty count +:+ " candidate sites. Most stable site: "
     +:+ best_type +:+ " (" +:+ best_energy
     +:+ " eV). Surface relaxation converged.")%string.

Definition calculateAdsorptionPhysics (structure : MaterialStructure)
           (adsorbate : string) : M AnalysisResult :=
  let maxY := surface_maxY structure in
  let surfaceAtoms := surface_atoms structure in
  sites <- top_sites surfaceAtoms [] ;;
  sites <- bridge_sites surfaceAtoms sites ;;
  sites <- hollow_sites surfaceAtoms maxY sites ;;
  let baseBinding := base_binding structure adsorbate in
  sites <- update_energies baseBinding sites ;;
  (* sort and pick best *)
  let sites := Array_sort (fun a b => number_minus (energy a) (energy b)) sites in
  let sortedSites := slice0 8 sites in
  r <- Math_random ;;
  ret {| sites := sortedSites;
         summary := summary_of (length sites) (sortedSites !! 0%nat);
         potentialUsed := "FAIR-Chem EquiformerV2 (Simulated)";
         calculationTime := "1.2s";
         systemId := Some ("sys_" +:+ pretty (Math_floor (r * 10000)))%string;
         model := Some "equiformer_v2_31M_s2ef_all_md"%string |}.

End Analysis.

End PhysicsEngine.

(** ** The results dashboard ([components/ResultsDashboard.tsx]) *)

Module Dashboard.

Import Js Types PhysicsEngine.

(** [s.slice(0, n)] *)
Definition String_slice0 (n : nat) (s : string) : string := substring 0 n s.

Record ChartEntry : Type := {
  chart_name : string;
  chart_energy : number;
  chart_type : SiteType
}.

(** One row of the chart. *)
Definition chart_entry (site : AdsorptionSite) : ChartEntry :=
  {| chart_name :=
       (SiteType_to_string (type site) +:+ "-" +:+ String_slice0 4 (site_id site))%string;
     chart_energy := energy site;
     chart_type := type site |}.

(** The data prepared for the chart: the rows, sorted by energy. *)
Definition chartData (sites : list AdsorptionSite) : list ChartEntry :=
  Array_sort (fun a b => number_minus (chart_energy a) (chart_energy b))
             (map chart_entry sites).

Definition getBarColor (energy : number) : string :=
  if decide (number_lt energy (Num (-2.0))) then "#10b981"%string
  else if decide (number_lt energy (Num (-1.0))) then "#3b82f6"%string
  else "#ef4444"%string.

(** The colour class of the energy cell of the table. *)
Definition energy_cell_class (energy : number) : string :=
  if decide (number_lt energy (Num (-2))) then "text-emerald-400"%string
  else if decide (number_lt energy (Num (-1))) then "text-blue-400"%string
  else "text-red-400"%string.

End Dashboard.

(** ** The structure viewer ([components/StructureViewer.tsx]) *)

Module Viewer.

Import Js Types PhysicsEngine.

(** A number that may be [+Infinity], and [Math.min(...l)], which is
    [+Infinity] when there is no argument. *)
Inductive ynum : Type :=
| PosInfinity : ynum
| FinMin (r : R) : ynum.

Definition Math_min (l : list R) : ynum :=
  fold_left (fun m z =>
               match m with
               | PosInfinity => FinMin z
               | FinMin r => FinMin (Rmin r z)
               end) l PosInfinity.

(** The real behind a [ynum]; only used where the value is finite. *)
Definition finite_min (m : ynum) : R :=
  match m with PosInfinity => 0 | FinMin r => r end.

(** [THREE.Vector3], with the operations the viewer uses. *)
Definition Vector3 : Type := (R * R * R)%type.

Definition Vector3_add (u v : Vector3) : Vector3 :=
  let '(ux, uy, uz) := u in
  let '(vx, vy, vz) := v in
  (ux + vx, uy + vy, uz + vz).

Definition Vector3_negate (u : Vector3) : Vector3 :=
  let '(ux, uy, uz) := u in (- ux, - uy, - uz).

(** [u.divideScalar(s)] multiplies by [1 / s]. *)
Definition Vector3_divideScalar (u : Vector3) (s : R) : Vector3 :=
  let '(ux, uy, uz) := u in (ux * (1 / s), uy * (1 / s), uz * (1 / s)).

Definition Vector3_distanceTo (u v : Vector3) : R :=
  let '(ux, uy, uz) := u in
  let '(vx, vy, vz) := v in
  sqrt ((ux - vx) * (ux - vx) + (uy - vy) * (uy - vy) + (uz - vz) * (uz - vz)).

(** [new THREE.Vector3(...v)]: a missing component is 0. *)
Definition Vector3_spread (v : list R) : Vector3 :=
  (nth 0 v 0, nth 1 v 0, nth 2 v 0).

(** The colour of a site marker, by energy. *)
Definition getColor (e : number) : string :=
  if decide (number_lt e (Num (-2.0))) then "#10b981"%string
  else if decide (number_lt e (Num (-1.0))) then "#3b82f6"%string
  else "#ef4444"%string.

(** *** The first scene: the slab is centred on its bounding box *)

Definition SceneContent_center (structure : MaterialStructure) : Vector3 :=
  if (length (atoms structure) =? 0)%nat then (0, 0, 0)
  else
    let xs := map x (atoms structure) in
    let ys := map y (atoms structure) in
    let zs := map z (atoms structure) in
    let cx := (finite_min (Math_min xs) + finite (Math_max xs)) / 2 in
    let cy := (finite_min (Math_min ys) + finite (Math_max ys)) / 2 in
    let cz := (finite_min (Math_min zs) + finite (Math_max zs)) / 2 in
    (- cx, - cy, - cz).

(** *** The second scene: unit cell, bonds, centre of mass *)

Definition BOND_RADIUS : R := 0.15.
Definition ATOM_SCALE : R := 0.5.
Definition BOND_TOLERANCE : R := 1.25.

(** The 24 end points of the 12 edges of the unit cell; [null] unless there
    are exactly three lattice vectors. *)
Definition UnitCellBox_points (vectors : option (list (list R)))
  : option (list Vector3) :=
  match vectors with
  | None => None
  | Some vs =>
      if negb (length vs =? 3)%nat then None
      else
        let a := Vector3_spread (nth 0 vs []) in
        let b := Vector3_spread (nth 1 vs []) in
        let c := Vector3_spread (nth 2 vs []) in
        let origin : Vector3 := (0, 0, 0) in
        let p0 := origin in
        let p1 := a in
        let p2 := b in
        let p3 := c in
        let p4 := Vector3_add a b in
        let p5 := Vector3_add a c in
        let p6 := Vector3_add b c in
        let p7 := Vector3_add (Vector3_add a b) c in
        Some [ p0; p1; p0; p2; p0; p3;
               p1; p4; p1; p5;
               p2; p4; p2; p6;
               p3; p5; p3; p6;
               p4; p7; p5; p7; p6; p7 ]
  end.

Record Bond : Type := { bond_start : Vector3; bond_end : Vector3 }.

(** The bonds: every pair of atoms closer than the scaled sum of their radii
    and farther apart than 0.1. *)
Definition bonds (structure : MaterialStructure) : M (list Bond) :=
  let atoms := atoms structure in
  for_rangeM 0 (length atoms) (fun i =>
    for_rangeM (i + 1) (length atoms) (fun j bondsList =>
      a1 <- element_at atoms i "x" ;;
      a2 <- element_at atoms j "x" ;;
      let v1 : Vector3 := (x a1, y a1, z a1) in
      let v2 : Vector3 := (x a2, y a2, z a2) in
      let dist := Vector3_distanceTo v1 v2 in
      (* simple threshold: sum of radii * tolerance *)
      let threshold :=
        (or_number (radius a1) 1 + or_number (radius a2) 1)
        * ATOM_SCALE * BOND_TOLERANCE in
      if bool_decide (dist < threshold) && bool_decide (dist > 0.1) then
        ret (bondsList ++ [ {| bond_start := v1; bond_end := v2 |} ])
      else ret bondsList))
    [].

(** The centre of mass, for camera targeting. *)
Definition MolecularScene_center (structure : MaterialStructure) : Vector3 :=
  if (length (atoms structure) =? 0)%nat then (0, 0, 0)
  else
    let sum :=
      fold_left (fun '(sx, sy, sz) a => (sx + x a, sy + y a, sz + z a))
                (atoms structure) (0, 0, 0) in
    Vector3_divideScalar sum (INR (length (atoms structure))).

(** The position of the group that holds the scene. *)
Definition MolecularScene_position (structure : MaterialStructure) : Vector3 :=
  Vector3_negate (MolecularScene_center structure).

End Viewer.

(** ** The post-processing of the legacy structure service *)

Module LegacyService.

Import Js Constants Types PhysicsEngine.

(** An atom as the remote service returns it. *)
Record RawAtom : Type := {
  raw_element : string;
  raw_x : R;
  raw_y : R;
  raw_z : R
}.

(** An atom after post-processing.  Its colour and its radius are whatever
    the reads of the tables find: the element comes from the reply of the
    remote service and is any string, so the read can find a built-in, which
    is neither a string nor a number. *)
Record DisplayAtom : Type := {
  display_id : nat;
  display_element : string;
  display_x : R;
  display_y : R;
  display_z : R;
  display_color : option (value string);
  display_radius : option (value R)
}.

(** [table[key] || table.X]: the value [falsy] (the empty string, zero) is
    falsy like [undefined], a built-in is truthy. *)
Definition or_X {A : Type} `{EqDecision A} (falsy : A) (table : gmap string A)
           (key : string) : option (value A) :=
  match Object_get table key with
  | Some (Own a) =>
      if decide (a = falsy) then Object_get table "X"%string else Some (Own a)
  | Some (Builtin name) => Some (Builtin name)
  | None => Object_get table "X"%string
  end.

Definition display_atom (index : nat) (a : RawAtom) : DisplayAtom :=
  {| display_id := index;
     display_element := raw_element a;
     display_x := raw_x a;
     display_y := raw_y a;
     display_z := raw_z a;
     display_color := or_X ""%string CPK_COLORS (raw_element a);
     display_radius := or_X 0 ATOMIC_RADII (raw_element a) |}.

(** [data.atoms.map((a, index) => ...)] *)
Definition display_atoms (raw : list RawAtom) : list DisplayAtom :=
  imap display_atom raw.

End LegacyService.

(** * Specification vocabulary *)

Import Js Regex Constants Types PhysicsEngine.
Import Dashboard Viewer LegacyService.

(** The operations of the specification: [build] is
    [generateSlabStructure], a function of the query; [analyze] is
    [calculateAdsorptionPhysics], a computation in the effect model of the
    engine. *)
Definition analyze (random : nat -> R) (structure : MaterialStructure)
           (adsorbate : string) : M AnalysisResult :=
  calculateAdsorptionPhysics random structure adsorbate.

(** Where a candidate site comes from: a surface atom, a pair of surface
    atoms inside the nearest-neighbour window, or the hollow fallback at the
    first surface atom. *)
Inductive candidate (surf : list Atom) (maxY : xnum) : AdsorptionSite -> Prop :=
| candidate_top atom :
    In atom surf -> candidate surf maxY (top_site atom)
| candidate_bridge i j a1 a2 :
    (i < j)%nat -> surf !! i = Some a1 -> surf !! j = Some a2 ->
    2.0 < distance a1 a2 < 3.0 ->
    candidate surf maxY (bridge_site a1 a2)
| candidate_hollow a0 :
    surf !! 0%nat = Some a0 -> candidate surf maxY (hollow_site a0 maxY).

(** base + offset + jitter, in the arithmetic of the engine. *)
Definition site_energy (base : number) (offset jitter : R) : number :=
  number_plus (number_plus base (Num offset)) (Num jitter).

(** A scored site: a candidate whose energy was replaced by
    base + offset + jitter, the jitter drawn from the random sequence. *)
Definition scored (random : nat -> R) (base : number) (c s : AdsorptionSite)
  : Prop :=
  exists k : nat,
    s = set_energy c (site_energy base (site_factor (type c))
                                  ((random k - 0.5) * 0.2)).

(** The sites of a list are in ascending order of energy:
    [l[i].energy <= l[i+1].energy] for every valid index. *)
Definition ascending (l : list AdsorptionSite) : Prop :=
  forall (i : nat) a b,
    l !! i = Some a -> l !! S i = Some b -> number_le (energy a) (energy b).

(** The failure the specification asks for on an empty structure: an error
    the program throws on purpose, as opposed to a [TypeError] of the
    runtime. *)
Definition empty_structure_condition {A : Type} (o : outcome A) : Prop :=
  exists msg, o = Throw (JsError msg).

(** The comparator of the final sort, and the order it sorts by. *)
Definition by_energy (a b : AdsorptionSite) : number :=
  number_minus (energy a) (energy b).

Definition le_energy (a b : AdsorptionSite) : Prop :=
  number_le (energy a) (energy b).

(** The energy of a site is a real number. *)
Definition finite_energy (a : AdsorptionSite) : Prop :=
  exists e : R, energy a = Num e.

(** The energy model in the words of the specification: the adsorbate's
    electronegativity is read off its label after the digits are stripped,
    and the base binding energy is minus half the electronegativity gap. *)
Definition spec_adsorbate_electronegativity (adsorbate : string) : R :=
  let label := remove_class "0" "9" adsorbate in
  if includes "O" label then 3.44
  else if includes "N" label then 3.04
  else 2.55.

Definition spec_base (structure : MaterialStructure) (adsorbate : string) : R :=
  -0.5 * Rabs (electronegativity (props_or_Cu (formula structure))
               - spec_adsorbate_electronegativity adsorbate).

(** A structure without atoms. *)
Definition structureWithNoAtoms : MaterialStructure :=
  {| formula := "Au";
     description := "";
     structure_mpId := None;
     millerIndex := Some "(111)"%string;
     atoms := [];
     latticeVectors := None;
     structure_formationEnergy := None;
     structure_bandGap := None;
     structure_symmetry := None |}.

(** A random source that always answers one half. *)
Definition half : nat -> R := fun _ => 0.5.

(** A small slab for running the engine: two gold atoms 2.5 A apart, and a
    random source that keeps the first on-top site, skips the second and
    keeps the bridge. *)
Definition demo_a0 : Atom := createAtom "Au" 0 0 0 0.
Definition demo_a1 : Atom := createAtom "Au" 2.5 0 0 1.

Definition demo_structure : MaterialStructure :=
  {| formula := "Au";
     description := "";
     structure_mpId := None;
     millerIndex := Some "(111)"%string;
     atoms := [demo_a0; demo_a1];
     latticeVectors := None;
     structure_formationEnergy := None;
     structure_bandGap := None;
     structure_symmetry := None |}.

Definition demo_random : nat -> R :=
  fun n => match n with O => 0.5 | _ => 0.9 end.

(** The sites the engine returns on the two-atom slab. *)
Definition demo_sites : list AdsorptionSite :=
  let base := base_binding demo_structure "CO" in
  [ set_energy (hollow_site demo_a0 (Fin 0))
               (site_energy base (-0.8) ((0.9 - 0.5) * 0.2));
    set_energy (bridge_site demo_a0 demo_a1)
               (site_energy base (-0.2) ((0.9 - 0.5) * 0.2));
    set_energy (top_site demo_a0)
               (site_energy base 0.5 ((0.9 - 0.5) * 0.2)) ].

(** The same slab under a formula that is the name of a property every
    object inherits, and the sites the engine returns on it: the candidates
    in the order they were found, each with the energy [NaN]. *)
Definition constructor_structure : MaterialStructure :=
  {| formula := "constructor";
     description := "";
     structure_mpId := None;
     millerIndex := Some "(111)"%string;
     atoms := [demo_a0; demo_a1];
     latticeVectors := None;
     structure_formationEnergy := None;
     structure_bandGap := None;
     structure_symmetry := None |}.

Definition constructor_sites : list AdsorptionSite :=
  [ set_energy (top_site demo_a0) NaN;
    set_energy (bridge_site demo_a0 demo_a1) NaN;
    set_energy (hollow_site demo_a0 (Fin 0)) NaN ].

(** The exception of reading property [x] of [undefined]. *)
Definition undefined_x : exn :=
  TypeError "Cannot read properties of undefined (reading 'x')".

(** Upper-casing the letters of a string: hexadecimal colours that differ
    only in the case of their digits are the same colour. *)
Definition upper (c : ascii) : ascii :=
  if in_class "a" "z" c then ascii_of_nat (nat_of_ascii c - 32) else c.

Fixpoint uppercase (s : string) : string :=
  match s with
  | EmptyString => EmptyString
  | String c s' => String (upper c) (uppercase s')
  end.

(** The state of the builder's loops after [m] atoms: the next id is [m],
    the atom at position [n] has id [n] and lies in layer [n / per_layer],
    [spacing] above the previous layer. *)
Definition layered (per_layer : nat) (spacing : R) (m : nat)
           (st : list Atom * nat) : Prop :=
  snd st = m /\ length (fst st) = m /\
  forall n atom, fst st !! n = Some atom ->
                 id atom = n /\ z atom = INR (n / per_layer) * spacing.

(** The Euclidean length of a vector, and the height of a stack of layers. *)
Definition magnitude (v : list R) : R :=
  sqrt (fold_right (fun c acc => c * c + acc) 0 v).

Definition sum_of_spacings (layers : nat) (spacing : R) : R :=
  fold_right Rplus 0 (repeat spacing layers).

(** The parser in the words of the specification.  The element symbol is
    the leading upper-case letter with the lower-case letter that may follow
    it; the Miller index is the first parenthesized group of three digits. *)
Definition leading_symbol (q : string) : option string :=
  match q with
  | String c1 rest =>
      if in_class "A" "Z" c1 then
        match rest with
        | String c2 _ =>
            if in_class "a" "z" c2 then Some (String c1 (String c2 ""))
            else Some (String c1 "")
        | EmptyString => Some (String c1 "")
        end
      else None
  | EmptyString => None
  end.

Definition three_digits (g : string) : Prop :=
  exists d1 d2 d3,
    g = String d1 (String d2 (String d3 "")) /\
    in_class "0" "9" d1 = true /\ in_class "0" "9" d2 = true /\
    in_class "0" "9" d3 = true.

Definition group_at_head (q : string) : option string :=
  match q with
  | String p (String d1 (String d2 (String d3 (String p' _)))) =>
      if Ascii.eqb p "(" && in_class "0" "9" d1 && in_class "0" "9" d2
         && in_class "0" "9" d3 && Ascii.eqb p' ")"
      then Some (String d1 (String d2 (String d3 "")))
      else None
  | _ => None
  end.

Fixpoint first_group (q : string) : option string :=
  match group_at_head q with
  | Some g => Some g
  | None =>
      match q with
      | EmptyString => None
      | String _ q' => first_group q'
      end
  end.

(** [g] is a parenthesized group of three digits somewhere in [q]. *)
Definition has_group (q g : string) : Prop :=
  exists pre post,
    q = (pre +:+ "(" +:+ g +:+ ")" +:+ post)%string /\ three_digits g.

(** The scored candidates of a run, before they are sorted and cut: the
    first four stages of [calculateAdsorptionPhysics]. *)
Definition scored_candidates (random : nat -> R) (structure : MaterialStructure)
           (adsorbate : string) : M (list AdsorptionSite) :=
  bind (top_sites random (surface_atoms structure) [])
       (fun sites =>
          bind (bridge_sites random (surface_atoms structure) sites)
               (fun sites =>
                  bind (hollow_sites (surface_atoms structure)
                                     (surface_maxY structure) sites)
                       (fun sites =>
                          update_energies random
                                          (base_binding structure adsorbate) sites))).

(** The number of Hollow sites of a list. *)
Definition hollow_count (l : list AdsorptionSite) : nat :=
  length (List.filter (fun c => bool_decide (type c = Hollow)) l).

(** The atoms of one grid cell, as the loop bodies of the builder make
    them, and the slab as the list of its cells in generation order. *)
Definition fcc111_cell (element : string) (a : R) (k j i id : nat) : list Atom :=
  let x_dist := a / sqrt 2 in
  let y_dist := a * sqrt 6 / 2 in
  let z_layer_spacing := a / sqrt 3 in
  let shiftX :=
    if (k mod 3 =? 1)%nat then 0.5 * x_dist
    else if (k mod 3 =? 2)%nat then 0
    else 0 in
  let shiftY :=
    if (k mod 3 =? 1)%nat then y_dist / 6
    else if (k mod 3 =? 2)%nat then 2 * (y_dist / 6)
    else 0 in
  let x := INR i * x_dist + shiftX in
  let y := INR j * y_dist + shiftY in
  let z := INR k * z_layer_spacing in
  [ createAtom element (rem x (x_dist * INR 3)) (rem y (y_dist * INR 3)) z id;
    createAtom element (rem (x + x_dist / 2) (x_dist * INR 3))
               (rem (y + y_dist / 2) (y_dist * INR 3)) z (S id) ].

Definition fcc100_cell (element : string) (a : R) (k j i id : nat) : list Atom :=
  let d := a / sqrt 2 in
  let x := INR i * d in
  let y := INR j * d in
  let x := if (k mod 2 =? 1)%nat then x + d / 2 else x in
  let y := if (k mod 2 =? 1)%nat then y + d / 2 else y in
  [ createAtom element x y (INR k * (a / 2)) id ].

Definition slab_cells (nz ny nx per_cell : nat)
           (cell : nat -> nat -> nat -> nat -> list Atom) : list Atom :=
  flat_map (fun k =>
    flat_map (fun j =>
      flat_map (fun i =>
        cell k j i (k * (ny * nx * per_cell) + j * (nx * per_cell) + i * per_cell)%nat)
        (seq 0 nx))
      (seq 0 ny))
    (seq 0 nz).

(** The position of an atom. *)
Definition position (atom : Atom) : R * R * R := (x atom, y atom, z atom).

(** An element symbol as the parser reads it: an upper-case letter,
    possibly followed by one lower-case letter. *)
Definition element_symbol (e : string) : Prop :=
  exists c1, in_class "A" "Z" c1 = true /\
             (e = String c1 "" \/
              exists c2, in_class "a" "z" c2 = true /\ e = String c1 (String c2 "")).

(** A list of coordinates is centred by the shift [c]: after the shift its
    smallest and its largest value are opposite. *)
Definition centred (l : list R) (c : R) : Prop :=
  exists w,
    (forall v, In v l -> - w <= v + c <= w) /\
    (exists lo, In lo l /\ lo + c = - w) /\
    (exists hi, In hi l /\ hi + c = w).

(** The sum of a list of reals. *)
Definition sum_R (l : list R) : R := fold_right Rplus 0 l.

(** The edges of a list of end points [p0; q0; p1; q1; ...]. *)
Fixpoint segments (pts : list Vector3) : list (Vector3 * Vector3) :=
  match pts with
  | p :: q :: rest => (p, q) :: segments rest
  | _ => []
  end.

(** The bond the viewer draws between two atoms, if any. *)
Definition bond_threshold (a1 a2 : Atom) : R :=
  (or_number (radius a1) 1 + or_number (radius a2) 1) * ATOM_SCALE * BOND_TOLERANCE.

Definition atom_vector (a : Atom) : Vector3 := (x a, y a, z a).

Definition bonded (a1 a2 : Atom) : Prop :=
  0.1 < Vector3_distanceTo (atom_vector a1) (atom_vector a2) < bond_threshold a1 a2.

(** The bonds as a list: the close pairs in the order of the two loops. *)
Definition bond_pair (atoms : list Atom) (i j : nat) : list Bond :=
  match atoms !! i, atoms !! j with
  | Some a1, Some a2 =>
      if bool_decide (Vector3_distanceTo (atom_vector a1) (atom_vector a2)
                      < bond_threshold a1 a2)
         && bool_decide (Vector3_distanceTo (atom_vector a1) (atom_vector a2) > 0.1)
      then [ {| bond_start := atom_vector a1; bond_end := atom_vector a2 |} ]
      else []
  | _, _ => []
  end.

Definition bond_list (atoms : list Atom) : list Bond :=
  flat_map (fun i => flat_map (bond_pair atoms i)
                              (seq (i + 1) (length atoms - (i + 1))))
           (seq 0 (length atoms - 0)).

(** * Properties *)

(** ** The effect monad *)

Section MonadFacts.

Context {A B : Type}.

Lemma bind_Return (c : M A) (k : A -> M B) n b n' :
  bind c k n = Return b n' ->
  exists a m, c n = Return a m /\ k a m = Return b n'.
Proof.
  unfold bind. destruct (c n) as [a m|e]; [|discriminate].
  intros H. exists a, m. split; [reflexivity|exact H].
Qed.

Lemma bind_Throw_l (c : M A) (k : A -> M B) n e :
  c n = Throw e -> bind c k n = Throw e.
Proof. unfold bind. intros ->. reflexivity. Qed.

Lemma bind_Return_l (c : M A) (k : A -> M B) n a m :
  c n = Return a m -> bind c k n = k a m.
Proof. unfold bind. intros ->. reflexivity. Qed.

End MonadFacts.

(** A loop whose body preserves an invariant preserves it, and a loop whose
    body always returns, returns. *)
Lemma foldM_invariant {A S : Type} (P : S -> Prop) (body : S -> A -> M S) l :
  (forall s a n s' n', In a l -> P s -> body s a n = Return s' n' -> P s') ->
  forall s n s' n', P s -> foldM body l s n = Return s' n' -> P s'.
Proof.
  induction l as [|a l IH]; intros Hbody s n s' n' Hs Hrun; simpl in Hrun.
  - unfold ret in Hrun. injection Hrun as <- _. exact Hs.
  - apply bind_Return in Hrun as (s1 & n1 & H1 & H2).
    eapply IH; [| |exact H2].
    + intros ? ? ? ? ? Hin. apply Hbody. right. exact Hin.
    + eapply Hbody; [left; reflexivity|exact Hs|exact H1].
Qed.

Lemma foldM_total {A S : Type} (body : S -> A -> M S) l :
  (forall s a n, In a l -> exists s' n', body s a n = Return s' n') ->
  forall s n, exists s' n', foldM body l s n = Return s' n'.
Proof.
  induction l as [|a l IH]; intros Hbody s n; simpl.
  - exists s, n. reflexivity.
  - destruct (Hbody s a n (or_introl eq_refl)) as (s1 & n1 & H1).
    rewrite (bind_Return_l _ _ _ _ _ H1).
    apply IH. intros ? ? ? Hin. apply Hbody. right. exact Hin.
Qed.

(** [mapM] relates the two lists element by element. *)
Lemma mapM_Forall2 {A B : Type} (Q : A -> B -> Prop) (f : A -> M B) :
  (forall a n b n', f a n = Return b n' -> Q a b) ->
  forall l n l' n', mapM f l n = Return l' n' -> Forall2 Q l l'.
Proof.
  intros Hf. induction l as [|a l IH]; intros n l' n' Hrun; simpl in Hrun.
  - unfold ret in Hrun. injection Hrun as <- _. constructor.
  - apply bind_Return in Hrun as (b & n1 & H1 & H2).
    apply bind_Return in H2 as (bs & n2 & H2 & H3).
    unfold ret in H3. injection H3 as <- _.
    constructor; [eapply Hf; exact H1|eapply IH; exact H2].
Qed.

Lemma mapM_total {A B : Type} (f : A -> M B) :
  (forall a n, exists b n', f a n = Return b n') ->
  forall l n, exists l' n', mapM f l n = Return l' n'.
Proof.
  intros Hf. induction l as [|a l IH]; intros n; simpl.
  - exists [], n. reflexivity.
  - destruct (Hf a n) as (b & n1 & H1).
    rewrite (bind_Return_l _ _ _ _ _ H1).
    destruct (IH n1) as (bs & n2 & H2).
    rewrite (bind_Return_l _ _ _ _ _ H2).
    exists (b :: bs), n2. reflexivity.
Qed.

(** ** Surface detection *)

Lemma Math_max_fold l : forall r,
  exists m, fold_left (fun m z => match m with
                                  | NegInfinity => Fin z
                                  | Fin r => Fin (Rmax r z)
                                  end) l (Fin r) = Fin m
            /\ (m = r \/ In m l).
Proof.
  induction l as [|z l IH]; intros r; simpl.
  - exists r. split; [reflexivity|left; reflexivity].
  - destruct (IH (Rmax r z)) as (m & Hm & Hin).
    exists m. split; [exact Hm|].
    destruct Hin as [->|Hin]; [|right; right; exact Hin].
    unfold Rmax. destruct (Rle_dec r z); [right; left|left]; reflexivity.
Qed.

Lemma Math_max_cons z l : exists m, Math_max (z :: l) = Fin m /\ In m (z :: l).
Proof.
  unfold Math_max. simpl.
  destruct (Math_max_fold l z) as (m & Hm & Hin).
  exists m. split; [exact Hm|].
  destruct Hin as [->|Hin]; [left; reflexivity|right; exact Hin].
Qed.

(** In the model, where every coordinate is finite, the surface is empty
    exactly when the structure has no atom. *)
Lemma surface_atoms_nil_iff (s : MaterialStructure) :
  surface_atoms s = [] <-> atoms s = [].
Proof.
  unfold surface_atoms, surface_maxY. split.
  - destruct (atoms s) as [|a l] eqn:Ha; [reflexivity|].
    intros Hnil. exfalso.
    destruct (Math_max_cons (z a) (map z l)) as (m & Hm & Hin).
    change (z a :: map z l) with (map z (a :: l)) in Hm, Hin.
    apply in_map_iff in Hin as (b & Hb & Hin).
    assert (Hf : In b (List.filter
                         (fun a0 => gt_x (z a0) (xminus (Math_max (map z (a :: l))) 1.5))
                         (a :: l))).
    { apply filter_In. split; [exact Hin|].
      rewrite Hm. simpl. apply bool_decide_eq_true. rewrite Hb. lra. }
    rewrite Hnil in Hf. destruct Hf.
  - intros ->. reflexivity.
Qed.

(** ** The stages of the site search *)

Section Stages.

Variable random : nat -> R.
Variable surf : list Atom.
Variable maxY : xnum.

Lemma top_sites_candidates sites n sites' n' :
  Forall (candidate surf maxY) sites ->
  top_sites random surf sites n = Return sites' n' ->
  Forall (candidate surf maxY) sites'.
Proof.
  unfold top_sites. intros Hs Hrun.
  eapply foldM_invariant; [|exact Hs|exact Hrun].
  clear. intros s a n s' n' Hin Hs Hbody.
  apply bind_Return in Hbody as (r & m & _ & Hbody).
  destruct (decide (r > 0.7)).
  - unfold ret in Hbody. injection Hbody as <- _. exact Hs.
  - unfold ret in Hbody. injection Hbody as <- _.
    apply Forall_app. split; [exact Hs|].
    constructor; [|constructor]. apply candidate_top. exact Hin.
Qed.

Lemma top_sites_total sites n :
  exists sites' n', top_sites random surf sites n = Return sites' n'.
Proof.
  unfold top_sites. apply foldM_total.
  intros s a m _. unfold bind, Math_random.
  destruct (decide (random m > 0.7)); eexists; eexists; reflexivity.
Qed.

Lemma element_at_Return {A : Type} (l : list A) i prop n a n' :
  element_at l i prop n = Return a n' -> l !! i = Some a /\ n' = n.
Proof.
  unfold element_at. destruct (l !! i) as [b|]; [|discriminate].
  unfold ret. intros H. injection H as <- <-. split; reflexivity.
Qed.

Lemma bridge_sites_candidates sites n sites' n' :
  Forall (candidate surf maxY) sites ->
  bridge_sites random surf sites n = Return sites' n' ->
  Forall (candidate surf maxY) sites'.
Proof.
  unfold bridge_sites, for_rangeM. intros Hs Hrun.
  eapply foldM_invariant; [|exact Hs|exact Hrun].
  clear. intros s i n s' n' Hi Hs Hinner.
  eapply foldM_invariant; [|exact Hs|exact Hinner].
  clear - Hi. intros s j n s' n' Hj Hs Hbody.
  apply in_seq in Hj.
  apply bind_Return in Hbody as (a1 & m1 & H1 & Hbody).
  apply bind_Return in Hbody as (a2 & m2 & H2 & Hbody).
  apply element_at_Return in H1 as [H1 _].
  apply element_at_Return in H2 as [H2 _].
  destruct (bool_decide (distance a1 a2 < 3.0)) eqn:Hlt;
    destruct (bool_decide (distance a1 a2 > 2.0)) eqn:Hgt; simpl in Hbody;
    try (unfold ret in Hbody; injection Hbody as <- _; exact Hs).
  apply bool_decide_eq_true in Hlt, Hgt.
  apply bind_Return in Hbody as (r & m & _ & Hbody).
  destruct (decide (r > 0.8));
    unfold ret in Hbody; injection Hbody as <- _; [|exact Hs].
  apply Forall_app. split; [exact Hs|].
  constructor; [|constructor].
  apply (candidate_bridge surf maxY i j); [lia|exact H1|exact H2|].
  split; [apply Rgt_lt; exact Hgt|exact Hlt].
Qed.

Lemma element_at_total {A : Type} (l : list A) i prop n :
  (i < length l)%nat -> exists a, element_at l i prop n = Return a n.
Proof.
  intros Hi. unfold element_at.
  destruct (lookup_lt_is_Some_2 l i Hi) as [a ->].
  exists a. reflexivity.
Qed.

Lemma bridge_sites_total sites n :
  exists sites' n', bridge_sites random surf sites n = Return sites' n'.
Proof.
  unfold bridge_sites, for_rangeM. apply foldM_total.
  intros s i m Hi. apply in_seq in Hi.
  apply foldM_total.
  intros s1 j m1 Hj. apply in_seq in Hj.
  destruct (element_at_total surf i "x" m1) as [a1 H1]; [lia|].
  rewrite (bind_Return_l _ _ _ _ _ H1).
  destruct (element_at_total surf j "x" m1) as [a2 H2]; [lia|].
  rewrite (bind_Return_l _ _ _ _ _ H2).
  destruct (bool_decide (distance a1 a2 < 3.0) && bool_decide (distance a1 a2 > 2.0)).
  - unfold bind, Math_random.
    destruct (decide (random m1 > 0.8)); eexists; eexists; reflexivity.
  - eexists; eexists; reflexivity.
Qed.

Lemma hollow_sites_candidates sites n sites' n' :
  Forall (candidate surf maxY) sites ->
  hollow_sites surf maxY sites n = Return sites' n' ->
  Forall (candidate surf maxY) sites'.
Proof.
  unfold hollow_sites. intros Hs Hrun.
  destruct (length sites <? 5)%nat.
  - apply bind_Return in Hrun as (a0 & m & H0 & Hrun).
    apply element_at_Return in H0 as [H0 _].
    unfold ret in Hrun. injection Hrun as <- _.
    apply Forall_app. split; [exact Hs|].
    constructor; [|constructor]. apply candidate_hollow. exact H0.
  - unfold ret in Hrun. injection Hrun as <- _. exact Hs.
Qed.

Lemma hollow_sites_total sites n :
  surf <> [] ->
  exists sites' n', hollow_sites surf maxY sites n = Return sites' n'.
Proof.
  intros Hne. unfold hollow_sites.
  destruct (length sites <? 5)%nat; [|eexists; eexists; reflexivity].
  destruct (element_at_total surf 0 "x" n) as [a0 H0].
  { destruct surf; [congruence|simpl; lia]. }
  rewrite (bind_Return_l _ _ _ _ _ H0). eexists; eexists; reflexivity.
Qed.

(** Without a surface atom the search finds nothing and the fallback reads
    a property of [undefined]. *)
Lemma top_sites_nil sites n : top_sites random [] sites n = Return sites n.
Proof. reflexivity. Qed.

Lemma bridge_sites_nil sites n : bridge_sites random [] sites n = Return sites n.
Proof. reflexivity. Qed.

Lemma update_energies_scored base sites n sites' n' :
  update_energies random base sites n = Return sites' n' ->
  Forall2 (scored random base) sites sites'.
Proof.
  unfold update_energies. apply mapM_Forall2.
  clear. intros c n s n' Hrun.
  unfold bind, Math_random, ret in Hrun. injection Hrun as <- _.
  exists n. reflexivity.
Qed.

Lemma update_energies_total base sites n :
  exists sites' n', update_energies random base sites n = Return sites' n'.
Proof.
  unfold update_energies. apply mapM_total.
  intros c m. eexists; eexists; reflexivity.
Qed.

End Stages.

(** The on-top sites are subsampled: a draw above 0.7 skips the atom, any
    other draw keeps it. *)
Lemma top_step random (sites : list AdsorptionSite) atom n :
  (r <- Math_random random ;;
   if decide (r > 0.7) then ret sites else ret (sites ++ [top_site atom])) n
  = Return (if decide (random n > 0.7) then sites else sites ++ [top_site atom])
           (S n).
Proof.
  unfold bind, Math_random. destruct (decide (random n > 0.7)); reflexivity.
Qed.

Lemma top_sites_all_skipped random surf : forall sites n,
  (forall k, random k > 0.7) ->
  top_sites random surf sites n = Return sites (n + length surf)%nat.
Proof.
  unfold top_sites. induction surf as [|a surf IH]; intros sites n Hr.
  - simpl. unfold ret. rewrite Nat.add_0_r. reflexivity.
  - cbn [foldM]. rewrite (bind_Return_l _ _ _ _ _ (top_step random sites a n)).
    destruct (decide (random n > 0.7)) as [_|Hn]; [|destruct (Hn (Hr n))].
    rewrite (IH sites (S n) Hr). simpl. f_equal. lia.
Qed.

Lemma top_sites_all_kept random surf : forall sites n,
  (forall k, random k <= 0.7) ->
  top_sites random surf sites n
  = Return (sites ++ map top_site surf) (n + length surf)%nat.
Proof.
  unfold top_sites. induction surf as [|a surf IH]; intros sites n Hr.
  - simpl. unfold ret. rewrite Nat.add_0_r, app_nil_r. reflexivity.
  - cbn [foldM]. rewrite (bind_Return_l _ _ _ _ _ (top_step random sites a n)).
    destruct (decide (random n > 0.7)) as [Hn|_].
    { specialize (Hr n). lra. }
    rewrite (IH (sites ++ [top_site a]) (S n) Hr). simpl.
    rewrite <- app_assoc. f_equal. lia.
Qed.

(** ** Sorting and truncation *)

Lemma sort_insert_Permutation {A : Type} (cmp : A -> A -> number) a l :
  Permutation (sort_insert cmp a l) (a :: l).
Proof.
  induction l as [|b l IH]; cbn [sort_insert]; [reflexivity|].
  destruct (decide (number_lt (Num 0) (cmp a b))); [|reflexivity].
  rewrite IH. apply perm_swap.
Qed.

Lemma Array_sort_Permutation {A : Type} (cmp : A -> A -> number) l :
  Permutation (Array_sort cmp l) l.
Proof.
  induction l as [|a l IH]; cbn [Array_sort fold_right]; [reflexivity|].
  fold (Array_sort cmp l).
  rewrite sort_insert_Permutation. constructor. exact IH.
Qed.

(** Whatever the comparator answers, as long as it never puts each of two
    elements after the other, the sorted array has no element that the
    comparator puts after its successor. *)
Section InOrder.

Context {A : Type} (cmp : A -> A -> number).

Hypothesis cmp_one_way :
  forall a b, number_lt (Num 0) (cmp a b) -> ~ number_lt (Num 0) (cmp b a).

Lemma sort_insert_in_order a l :
  Sorted (fun a b => ~ number_lt (Num 0) (cmp a b)) l ->
  Sorted (fun a b => ~ number_lt (Num 0) (cmp a b)) (sort_insert cmp a l).
Proof.
  induction 1 as [|b l Hs IH Hhd]; cbn [sort_insert].
  - repeat constructor.
  - destruct (decide (number_lt (Num 0) (cmp a b))) as [Hgt|Hle].
    + constructor; [exact IH|].
      destruct l as [|c l]; cbn [sort_insert].
      * constructor. apply cmp_one_way. exact Hgt.
      * destruct (decide (number_lt (Num 0) (cmp a c))); constructor.
        -- inversion Hhd; assumption.
        -- apply cmp_one_way. exact Hgt.
    + constructor; [constructor; assumption|].
      constructor. exact Hle.
Qed.

Lemma Array_sort_in_order l :
  Sorted (fun a b => ~ number_lt (Num 0) (cmp a b)) (Array_sort cmp l).
Proof.
  induction l as [|a l IH]; cbn [Array_sort fold_right]; [constructor|].
  fold (Array_sort cmp l).
  apply sort_insert_in_order. exact IH.
Qed.

End InOrder.

Lemma sort_insert_in_front {A : Type} (cmp : A -> A -> number) a l :
  HdRel (fun a b => ~ number_lt (Num 0) (cmp a b)) a l ->
  sort_insert cmp a l = a :: l.
Proof.
  intros [|b l' Hab]; [reflexivity|].
  cbn [sort_insert].
  destruct (decide (number_lt (Num 0) (cmp a b))); [contradiction|reflexivity].
Qed.

(** The sort leaves an array that is in order as it is. *)
Lemma Array_sort_sorted {A : Type} (cmp : A -> A -> number) l :
  Sorted (fun a b => ~ number_lt (Num 0) (cmp a b)) l -> Array_sort cmp l = l.
Proof.
  induction 1 as [|a l _ IH Hhd]; [reflexivity|].
  cbn [Array_sort fold_right]. fold (Array_sort cmp l).
  rewrite IH. apply sort_insert_in_front. exact Hhd.
Qed.

Lemma by_energy_one_way a b :
  number_lt (Num 0) (by_energy a b) -> ~ number_lt (Num 0) (by_energy b a).
Proof.
  unfold by_energy. destruct (energy a), (energy b); simpl; try tauto. lra.
Qed.

(** Among sites whose energies are real numbers, that is the ascending
    order. *)
Lemma in_order_le_energy l :
  Forall finite_energy l ->
  Sorted (fun a b => ~ number_lt (Num 0) (by_energy a b)) l ->
  Sorted le_energy l.
Proof.
  intros Hfin Hs. induction Hs as [|a l Hs IH Hhd]; [constructor|].
  inversion Hfin as [|? ? [ea Ha] Hl]; subst.
  constructor; [apply IH; exact Hl|].
  destruct Hhd as [|b l Hab]; constructor.
  inversion Hl as [|? ? [eb Hb] _]; subst.
  unfold le_energy, by_energy in *. rewrite Ha, Hb in *. simpl in *. lra.
Qed.

Lemma Forall_Permutation {A : Type} (P : A -> Prop) l1 l2 :
  Permutation l1 l2 -> Forall P l1 -> Forall P l2.
Proof.
  intros Hp. rewrite !List.Forall_forall. intros H a Ha.
  apply H. apply (Permutation_in _ (Permutation_sym Hp)). exact Ha.
Qed.

(** Sites that all have the energy [NaN] are in order, whatever their
    order. *)
Lemma NaN_in_order l :
  Forall (fun a => energy a = NaN) l ->
  Sorted (fun a b => ~ number_lt (Num 0) (by_energy a b)) l.
Proof.
  induction 1 as [|a l Ha Hl IH]; constructor; [exact IH|].
  destruct l as [|b l]; constructor.
  unfold by_energy. rewrite Ha. simpl. tauto.
Qed.

Lemma Array_sort_Sorted l :
  Forall finite_energy l -> Sorted le_energy (Array_sort by_energy l).
Proof.
  intros Hfin. apply in_order_le_energy.
  - apply (Forall_Permutation _ l); [|exact Hfin].
    apply Permutation_sym, Array_sort_Permutation.
  - apply Array_sort_in_order. exact by_energy_one_way.
Qed.

Lemma Sorted_firstn {A : Type} (Rel : A -> A -> Prop) n : forall l,
  Sorted Rel l -> Sorted Rel (firstn n l).
Proof.
  induction n as [|n IH]; intros l Hl; simpl; [constructor|].
  destruct Hl as [|a l Hl Hhd]; [constructor|].
  constructor; [apply IH; exact Hl|].
  destruct n; simpl; [constructor|].
  destruct Hhd; constructor. assumption.
Qed.

Lemma Sorted_ascending l : Sorted le_energy l -> ascending l.
Proof.
  induction 1 as [|a l Hs IH Hhd]; intros i x y Hx Hy.
  - discriminate.
  - destruct i as [|i]; simpl in Hx, Hy.
    + injection Hx as <-. destruct Hhd as [|b l Hab]; [discriminate|].
      simpl in Hy. injection Hy as <-. exact Hab.
    + eapply IH; eassumption.
Qed.

Lemma In_firstn {A : Type} (a : A) n : forall l, In a (firstn n l) -> In a l.
Proof.
  induction n as [|n IH]; intros [|b l]; simpl; try tauto.
  intros [->|H]; [left; reflexivity|right; apply IH; exact H].
Qed.

(** ** The site engine as a whole *)

Section Engine.

Variable random : nat -> R.

(** What every run that returns has computed. *)
Lemma analyze_Return s ads n res n' :
  calculateAdsorptionPhysics random s ads n = Return res n' ->
  exists cands scoreds,
    Forall (candidate (surface_atoms s) (surface_maxY s)) cands /\
    Forall2 (scored random (base_binding s ads)) cands scoreds /\
    sites res = slice0 8 (Array_sort by_energy scoreds).
Proof.
  unfold calculateAdsorptionPhysics. intros Hrun.
  apply bind_Return in Hrun as (s1 & n1 & H1 & Hrun).
  apply bind_Return in Hrun as (s2 & n2 & H2 & Hrun).
  apply bind_Return in Hrun as (s3 & n3 & H3 & Hrun).
  apply bind_Return in Hrun as (s4 & n4 & H4 & Hrun).
  apply bind_Return in Hrun as (r & n5 & _ & Hrun).
  unfold ret in Hrun. injection Hrun as <- _.
  exists s3, s4. split; [|split].
  - eapply hollow_sites_candidates; [|exact H3].
    eapply bridge_sites_candidates; [|exact H2].
    eapply top_sites_candidates; [|exact H1].
    constructor.
  - eapply update_energies_scored. exact H4.
  - reflexivity.
Qed.

(** Every returned site is the scored copy of a candidate. *)
Lemma analyze_site_origin s ads n res n' site :
  calculateAdsorptionPhysics random s ads n = Return res n' ->
  In site (sites res) ->
  exists c, candidate (surface_atoms s) (surface_maxY s) c /\
            scored random (base_binding s ads) c site.
Proof.
  intros Hrun Hin.
  apply analyze_Return in Hrun as (cands & scoreds & Hc & Hsc & Hsites).
  rewrite Hsites in Hin. unfold slice0 in Hin. apply In_firstn in Hin.
  apply (Permutation_in _ (Array_sort_Permutation by_energy scoreds)) in Hin.
  clear Hsites. induction Hsc as [|c x cs xs Hcx Hrest IH].
  - destruct Hin.
  - inversion Hc; subst. destruct Hin as [->|Hin].
    + exists c. split; assumption.
    + apply IH; assumption.
Qed.

(** The engine returns on every structure that has an atom. *)
Lemma analyze_total s ads n :
  atoms s <> [] ->
  exists res n', calculateAdsorptionPhysics random s ads n = Return res n'.
Proof.
  intros Hne. unfold calculateAdsorptionPhysics.
  destruct (top_sites_total random (surface_atoms s) [] n) as (s1 & n1 & H1).
  rewrite (bind_Return_l _ _ _ _ _ H1).
  destruct (bridge_sites_total random (surface_atoms s) s1 n1) as (s2 & n2 & H2).
  rewrite (bind_Return_l _ _ _ _ _ H2).
  destruct (hollow_sites_total (surface_atoms s) (surface_maxY s) s2 n2)
    as (s3 & n3 & H3).
  { intros Hnil. apply Hne. apply surface_atoms_nil_iff. exact Hnil. }
  rewrite (bind_Return_l _ _ _ _ _ H3).
  destruct (update_energies_total random (base_binding s ads) s3 n3)
    as (s4 & n4 & H4).
  rewrite (bind_Return_l _ _ _ _ _ H4).
  eexists; eexists; reflexivity.
Qed.

(** The engine throws on every structure without surface atom. *)
Lemma analyze_no_surface s ads n :
  surface_atoms s = [] ->
  calculateAdsorptionPhysics random s ads n
  = Throw (TypeError "Cannot read properties of undefined (reading 'x')").
Proof.
  intros Hnil. unfold calculateAdsorptionPhysics. rewrite Hnil.
  reflexivity.
Qed.

End Engine.

(** ** A complete run on the two-atom slab *)

(** Settles the comparisons of concrete reals the run goes through. *)
Ltac Rdecide :=
  repeat match goal with
         | |- context [@decide ?P ?d] =>
             destruct (@decide P d); try (exfalso; lra)
         | |- context [@bool_decide ?P ?d] =>
             first [ rewrite (@bool_decide_eq_true_2 P d) by lra
                   | rewrite (@bool_decide_eq_false_2 P d) by lra ]
         end.

Lemma demo_surface : surface_atoms demo_structure = [demo_a0; demo_a1].
Proof.
  unfold surface_atoms, surface_maxY, Math_max. simpl.
  rewrite !bool_decide_eq_true_2; [reflexivity|].
  unfold Rmax. destruct (Rle_dec 0 0); lra.
Qed.

Lemma demo_maxY : surface_maxY demo_structure = Fin 0.
Proof.
  unfold surface_maxY, Math_max. simpl.
  unfold Rmax. destruct (Rle_dec 0 0); reflexivity.
Qed.

Lemma demo_distance : distance demo_a0 demo_a1 = 2.5.
Proof.
  unfold distance, Math_sqrt. simpl.
  match goal with
  | |- sqrt ?e = _ => replace e with (2.5 * 2.5) by lra
  end.
  apply sqrt_square. lra.
Qed.

Lemma demo_top :
  top_sites demo_random [demo_a0; demo_a1] [] 0%nat
  = Return [top_site demo_a0] 2%nat.
Proof.
  unfold top_sites. simpl. unfold bind, Math_random. simpl.
  Rdecide. simpl. Rdecide. reflexivity.
Qed.

Lemma demo_bridge :
  bridge_sites demo_random [demo_a0; demo_a1] [top_site demo_a0] 2%nat
  = Return [top_site demo_a0; bridge_site demo_a0 demo_a1] 3%nat.
Proof.
  unfold bridge_sites, for_rangeM. simpl. unfold bind, element_at. simpl.
  unfold ret. rewrite demo_distance. Rdecide. simpl.
  unfold Math_random. simpl. Rdecide. reflexivity.
Qed.

Lemma demo_hollow :
  hollow_sites [demo_a0; demo_a1] (Fin 0)
               [top_site demo_a0; bridge_site demo_a0 demo_a1] 3%nat
  = Return [top_site demo_a0; bridge_site demo_a0 demo_a1;
            hollow_site demo_a0 (Fin 0)] 3%nat.
Proof. reflexivity. Qed.

Lemma demo_energies base :
  update_energies demo_random base
    [top_site demo_a0; bridge_site demo_a0 demo_a1; hollow_site demo_a0 (Fin 0)]
    3%nat
  = Return [ set_energy (top_site demo_a0)
                        (site_energy base 0.5 ((0.9 - 0.5) * 0.2));
             set_energy (bridge_site demo_a0 demo_a1)
                        (site_energy base (-0.2) ((0.9 - 0.5) * 0.2));
             set_energy (hollow_site demo_a0 (Fin 0))
                        (site_energy base (-0.8) ((0.9 - 0.5) * 0.2)) ]
           6%nat.
Proof. reflexivity. Qed.

Lemma demo_sort b :
  Array_sort by_energy
    [ set_energy (top_site demo_a0)
                 (site_energy (Num b) 0.5 ((0.9 - 0.5) * 0.2));
      set_energy (bridge_site demo_a0 demo_a1)
                 (site_energy (Num b) (-0.2) ((0.9 - 0.5) * 0.2));
      set_energy (hollow_site demo_a0 (Fin 0))
                 (site_energy (Num b) (-0.8) ((0.9 - 0.5) * 0.2)) ]
  = [ set_energy (hollow_site demo_a0 (Fin 0))
                 (site_energy (Num b) (-0.8) ((0.9 - 0.5) * 0.2));
      set_energy (bridge_site demo_a0 demo_a1)
                 (site_energy (Num b) (-0.2) ((0.9 - 0.5) * 0.2));
      set_energy (top_site demo_a0)
                 (site_energy (Num b) 0.5 ((0.9 - 0.5) * 0.2)) ].
Proof.
  unfold Array_sort, by_energy. simpl. Rdecide. simpl. Rdecide. reflexivity.
Qed.

Lemma demo_base :
  base_binding demo_structure "CO" = Num (-0.5 * Rabs (2.54 - 3.44)).
Proof. reflexivity. Qed.

Lemma demo_run :
  exists res,
    analyze demo_random demo_structure "CO" 0%nat = Return res 7%nat /\
    sites res = demo_sites.
Proof.
  unfold analyze, calculateAdsorptionPhysics.
  rewrite demo_surface, demo_maxY.
  rewrite (bind_Return_l _ _ _ _ _ demo_top).
  rewrite (bind_Return_l _ _ _ _ _ demo_bridge).
  rewrite (bind_Return_l _ _ _ _ _ demo_hollow).
  rewrite (bind_Return_l _ _ _ _ _ (demo_energies _)).
  change (fun a b : AdsorptionSite => number_minus (energy a) (energy b))
    with by_energy.
  unfold demo_sites. rewrite demo_base, demo_sort.
  eexists. split; reflexivity.
Qed.

(** The same run under the formula ['constructor']: the read of the table
    finds the built-in, its electronegativity is [undefined], every energy is
    [NaN] and the sort moves nothing. *)
Lemma constructor_base ads : base_binding constructor_structure ads = NaN.
Proof. reflexivity. Qed.

Lemma constructor_run :
  exists res,
    analyze demo_random constructor_structure "CO" 0%nat = Return res 7%nat /\
    sites res = constructor_sites.
Proof.
  unfold analyze, calculateAdsorptionPhysics.
  change (surface_atoms constructor_structure) with (surface_atoms demo_structure).
  change (surface_maxY constructor_structure) with (surface_maxY demo_structure).
  rewrite demo_surface, demo_maxY.
  rewrite (bind_Return_l _ _ _ _ _ demo_top).
  rewrite (bind_Return_l _ _ _ _ _ demo_bridge).
  rewrite (bind_Return_l _ _ _ _ _ demo_hollow).
  rewrite (bind_Return_l _ _ _ _ _ (demo_energies _)).
  rewrite constructor_base.
  eexists. split; reflexivity.
Qed.

(** ** Digits and the electronegativity bucket *)

Lemma prefix_empty s : String.prefix "" s = true.
Proof. destruct s; reflexivity. Qed.

(** Removing the characters of a class does not change whether a character
    outside the class occurs. *)
Lemma includes_remove_class c lo hi s :
  in_class lo hi c = false ->
  includes (String c "") (remove_class lo hi s) = includes (String c "") s.
Proof.
  intros Hc. induction s as [|a s IH]; [reflexivity|].
  cbn [remove_class]. destruct (in_class lo hi a) eqn:Ha.
  - rewrite IH. cbn [includes String.prefix].
    destruct (ascii_dec c a) as [->|_]; [congruence|reflexivity].
  - cbn [includes String.prefix]. rewrite IH, !prefix_empty. reflexivity.
Qed.

Lemma adsorbate_electronegativity_spec ads :
  adsorbate_electronegativity ads = spec_adsorbate_electronegativity ads.
Proof.
  unfold adsorbate_electronegativity, spec_adsorbate_electronegativity.
  cbv zeta. rewrite !includes_remove_class by reflexivity. reflexivity.
Qed.

(** ** Reading the physical table *)

Lemma inherited_In key : inherited key = true -> In key Object_prototype.
Proof.
  unfold inherited. intros H. apply existsb_exists in H as (name & Hin & Heq).
  apply String.eqb_eq in Heq. subst. exact Hin.
Qed.

(** No table has an entry under the name of a built-in. *)
Lemma inherited_not_a_key key :
  inherited key = true ->
  ELEMENT_PROPERTIES !! key = None /\
  CPK_COLORS !! key = None /\
  ATOMIC_RADII !! key = None.
Proof.
  intros H. apply inherited_In in H. unfold Object_prototype in H.
  repeat (destruct H as [<-|H]; [repeat split; reflexivity|]).
  destruct H.
Qed.

Lemma Object_get_own {A : Type} (table : gmap string A) key :
  inherited key = false -> Object_get table key = Own <$> table !! key.
Proof.
  intros H. unfold Object_get. rewrite H. destruct (table !! key); reflexivity.
Qed.

Lemma lookup_or_Cu_own e :
  inherited e = false -> lookup_or_Cu e = Own (props_or_Cu e).
Proof.
  intros H. unfold props_or_Cu, lookup_or_Cu, Object_get.
  destruct (ELEMENT_PROPERTIES !! e); [reflexivity|].
  rewrite H. reflexivity.
Qed.

Lemma lookup_or_Cu_inherited e :
  inherited e = true -> lookup_or_Cu e = Builtin e.
Proof.
  intros H. unfold lookup_or_Cu, Object_get.
  destruct (inherited_not_a_key e H) as (-> & _). rewrite H. reflexivity.
Qed.

Lemma base_binding_spec s ads :
  inherited (formula s) = false -> base_binding s ads = Num (spec_base s ads).
Proof.
  intros H. unfold base_binding, spec_base, Math_abs. cbv zeta.
  rewrite (lookup_or_Cu_own _ H), adsorbate_electronegativity_spec.
  reflexivity.
Qed.

Lemma base_binding_inherited s ads :
  inherited (formula s) = true -> base_binding s ads = NaN.
Proof.
  intros H. unfold base_binding. cbv zeta.
  rewrite (lookup_or_Cu_inherited _ H). reflexivity.
Qed.

(** The scored copies of candidates have real energies when the base is a
    real number, and the energy [NaN] when it is [NaN]. *)
Lemma scored_finite random b cs ss :
  Forall2 (scored random (Num b)) cs ss -> Forall finite_energy ss.
Proof.
  induction 1 as [|c x cs xs [k ->] _ IH]; constructor; [|exact IH].
  eexists. reflexivity.
Qed.

Lemma scored_NaN random cs ss :
  Forall2 (scored random NaN) cs ss -> Forall (fun x => energy x = NaN) ss.
Proof.
  induction 1 as [|c x cs xs [k ->] _ IH]; constructor; [reflexivity|exact IH].
Qed.

(** ** Properties of the site engine *)

(** C1, as stated, fails: on the structure without atoms the engine does not
    fail with an error of its own; it throws the TypeError of reading [x] of
    the missing first surface atom, an indexing error. *)
Lemma C1_counterexample :
  atoms structureWithNoAtoms = [] /\
  analyze half structureWithNoAtoms "CO" 0%nat = Throw undefined_x /\
  ~ empty_structure_condition (analyze half structureWithNoAtoms "CO" 0%nat).
Proof.
  split; [reflexivity|]. split; [reflexivity|].
  intros [msg H]. discriminate H.
Qed.

(** C1, amended: a structure with no atom, and more generally one with no
    surface atom, never gets an AnalysisResult, whatever the adsorbate and the
    random source: the engine throws, and what it throws is the TypeError of
    reading [x] of [undefined]. *)
Theorem C1_no_surface_throws random s ads n :
  atoms s = [] \/ surface_atoms s = [] ->
  analyze random s ads n = Throw undefined_x /\
  forall res n', analyze random s ads n <> Return res n'.
Proof.
  intros H.
  assert (Hnil : surface_atoms s = []).
  { destruct H as [H|H]; [apply surface_atoms_nil_iff|]; exact H. }
  unfold analyze. rewrite (analyze_no_surface random s ads n Hnil).
  split; [reflexivity|discriminate].
Qed.

Lemma C1_no_surface_throws_witness :
  atoms structureWithNoAtoms = [] /\
  analyze half structureWithNoAtoms "CO" 0%nat = Throw undefined_x.
Proof.
  split; [reflexivity|].
  apply (C1_no_surface_throws half structureWithNoAtoms "CO" 0%nat).
  left. reflexivity.
Defined.

(** C2 at the formula ['constructor'], the name of a property every object
    inherits: the engine returns the three candidates in the order it found
    them, each with the energy [NaN], so that [sites[i].energy <=
    sites[i+1].energy] is false of the result.  The claim fails there; the
    bound of eight sites holds. *)
Theorem C2_unsorted_at_constructor :
  inherited (formula constructor_structure) = true /\
  exists res,
    analyze demo_random constructor_structure "CO" 0%nat = Return res 7%nat /\
    sites res = constructor_sites /\
    Forall (fun site => energy site = NaN) (sites res) /\
    ~ ascending (sites res) /\
    (length (sites res) <= 8)%nat.
Proof.
  split; [reflexivity|].
  destruct constructor_run as (res & Hrun & Hsites).
  exists res. split; [exact Hrun|]. split; [exact Hsites|].
  rewrite Hsites. split; [repeat constructor|]. split; [|simpl; lia].
  intros Hasc.
  exact (Hasc 0%nat _ _ eq_refl eq_refl).
Qed.

Lemma candidate_type surf maxY c :
  candidate surf maxY c -> type c = Top \/ type c = Bridge \/ type c = Hollow.
Proof. destruct 1; simpl; auto. Qed.

(** C5 at the formula ['constructor']: the electronegativity read for the
    surface element is [undefined], no record of the table is used in its
    place, and the energy of every returned site is [NaN]: no real number,
    let alone base + offset + jitter. *)
Theorem C5_energy_NaN_at_constructor :
  inherited (formula constructor_structure) = true /\
  lookup_or_Cu (formula constructor_structure) = Builtin "constructor" /\
  field electronegativity (lookup_or_Cu (formula constructor_structure)) = None /\
  exists res,
    analyze demo_random constructor_structure "CO" 0%nat = Return res 7%nat /\
    sites res <> [] /\
    forall site, In site (sites res) ->
                 energy site = NaN /\ forall e : R, energy site <> Num e.
Proof.
  split; [reflexivity|]. split; [reflexivity|]. split; [reflexivity|].
  destruct constructor_run as (res & Hrun & Hsites).
  exists res. split; [exact Hrun|]. rewrite Hsites.
  split; [discriminate|].
  intros site Hin.
  assert (He : energy site = NaN).
  { destruct Hin as [<-|[<-|[<-|[]]]]; reflexivity. }
  split; [exact He|]. intros e. rewrite He. discriminate.
Qed.

Lemma demo_random_range k : 0 <= demo_random k < 1.
Proof. destruct k; simpl; lra. Qed.

(** C8: every returned Top site sits at a surface atom's (x, y), 2.0 A above
    it, and every returned Bridge site sits at the midpoint of two distinct
    surface atoms whose distance is strictly between 2.0 A and 3.0 A, raised
    by 1.8 A; so no pair outside the window yields a Bridge site. *)
Theorem C8_top_and_bridge_geometry random s ads n res n' site :
  analyze random s ads n = Return res n' ->
  In site (sites res) ->
  (type site = Top ->
   exists atom,
     In atom (surface_atoms s) /\
     coordinates site = (x atom, y atom, z atom + 2.0)) /\
  (type site = Bridge ->
   exists i j a1 a2,
     (i < j)%nat /\
     surface_atoms s !! i = Some a1 /\ surface_atoms s !! j = Some a2 /\
     2.0 < distance a1 a2 < 3.0 /\
     coordinates site
     = ((x a1 + x a2) / 2, (y a1 + y a2) / 2, (z a1 + z a2) / 2 + 1.8)).
Proof.
  intros Hrun Hin.
  destruct (analyze_site_origin random s ads n res n' site Hrun Hin)
    as (c & Hc & k & ->).
  simpl. destruct Hc as [atom Hatom|i j a1 a2 Hij H1 H2 Hd|a0 H0]; simpl;
    split; intros Ht; try discriminate Ht.
  - exists atom. split; [exact Hatom|reflexivity].
  - exists i, j, a1, a2. repeat split; try assumption; apply Hd.
Qed.

Lemma C8_top_and_bridge_geometry_witness :
  exists res,
    analyze demo_random demo_structure "CO" 0%nat = Return res 7%nat /\
    (exists atom,
        In atom (surface_atoms demo_structure) /\
        coordinates (set_energy (top_site demo_a0)
                       (site_energy (base_binding demo_structure "CO") 0.5
                                    ((0.9 - 0.5) * 0.2)))
        = (x atom, y atom, z atom + 2.0)).
Proof.
  destruct demo_run as (res & Hrun & Hsites).
  exists res. split; [exact Hrun|].
  refine (proj1 (C8_top_and_bridge_geometry demo_random demo_structure "CO"
                   0%nat res 7%nat
                   (set_energy (top_site demo_a0)
                      (site_energy (base_binding demo_structure "CO") 0.5
                                    ((0.9 - 0.5) * 0.2)))
                   Hrun _) eq_refl).
  rewrite Hsites. right. right. left. reflexivity.
Defined.

(** C10: every returned site is a Top, a Bridge or a Hollow site; the types
    fcc and hcp of the declaration are never produced. *)
Theorem C10_site_types random s ads n res n' site :
  analyze random s ads n = Return res n' ->
  In site (sites res) ->
  (type site = Top \/ type site = Bridge \/ type site = Hollow) /\
  type site <> fcc /\ type site <> hcp.
Proof.
  intros Hrun Hin.
  destruct (analyze_site_origin random s ads n res n' site Hrun Hin)
    as (c & Hc & k & ->).
  simpl. apply candidate_type in Hc.
  split; [exact Hc|].
  split; intros Heq; rewrite Heq in Hc;
    destruct Hc as [Hc|[Hc|Hc]]; discriminate Hc.
Qed.

Lemma C10_site_types_witness :
  exists res,
    analyze demo_random demo_structure "CO" 0%nat = Return res 7%nat /\
    type (set_energy (hollow_site demo_a0 (Fin 0))
            (site_energy (base_binding demo_structure "CO") (-0.8)
                                    ((0.9 - 0.5) * 0.2))) <> fcc.
Proof.
  destruct demo_run as (res & Hrun & Hsites).
  exists res. split; [exact Hrun|].
  refine (proj1 (proj2 (C10_site_types demo_random demo_structure "CO"
                          0%nat res 7%nat
                          (set_energy (hollow_site demo_a0 (Fin 0))
                             (site_energy (base_binding demo_structure "CO") (-0.8)
                                    ((0.9 - 0.5) * 0.2)))
                          Hrun _))).
  rewrite Hsites. left. reflexivity.
Defined.

(** ** The element tables *)

(** C3, as stated, fails at the symbol Zz, which is a key of no table: the
    display colour returned is [#ff00ff], not the [#FF00FF] stored under X,
    and the physical lookup does not return a record keyed X, for the
    physical table has no key X: its fallback is the record of Cu. *)
Lemma C3_counterexample :
  CPK_COLORS !! "Zz"%string = None /\
  ATOMIC_RADII !! "Zz"%string = None /\
  ELEMENT_PROPERTIES !! "Zz"%string = None /\
  color (createAtom "Zz" 0 0 0 0) <> Some "#FF00FF"%string /\
  Some (props_or_Cu "Zz") <> ELEMENT_PROPERTIES !! "X"%string /\
  ELEMENT_PROPERTIES !! "X"%string = None.
Proof.
  split; [reflexivity|]. split; [reflexivity|]. split; [reflexivity|].
  split; [|split; [|reflexivity]].
  - intros H. vm_compute in H. discriminate H.
  - intros H. discriminate H.
Qed.

(** C3, amended: no lookup fails.  For a symbol that is not the name of a
    property objects inherit: if it is not a key of the display tables the
    atom gets the colour [#ff00ff] (the magenta stored under X, in lower
    case) and the radius 1.0 (the one stored under X); if it is not a key of
    the physical table the record of Cu is used.  The display tables have
    the fallback key X, the physical table does not. *)
Theorem C3_fallbacks sym x y z i :
  inherited sym = false ->
  (CPK_COLORS !! sym = None ->
   color (createAtom sym x y z i) = Some "#ff00ff"%string) /\
  (ATOMIC_RADII !! sym = None ->
   radius (createAtom sym x y z i) = Some 1.0 /\
   radius (createAtom sym x y z i) = ATOMIC_RADII !! "X"%string) /\
  (ELEMENT_PROPERTIES !! sym = None ->
   lookup_or_Cu sym = Own (props_or_Cu sym) /\
   Some (props_or_Cu sym) = ELEMENT_PROPERTIES !! "Cu"%string) /\
  CPK_COLORS !! "X"%string = Some (uppercase "#ff00ff") /\
  CPK_COLORS !! "X"%string = Some "#FF00FF"%string /\
  ELEMENT_PROPERTIES !! "X"%string = None.
Proof.
  intros Hown.
  split; [|split; [|split; [|split; [|split]]]]; try reflexivity.
  - intros H. unfold createAtom. cbn [color]. rewrite H. reflexivity.
  - intros H. unfold createAtom. cbn [radius]. rewrite H. split; reflexivity.
  - intros H. split; [apply lookup_or_Cu_own; exact Hown|].
    unfold props_or_Cu, lookup_or_Cu, Object_get. rewrite H, Hown. reflexivity.
Qed.

Lemma C3_fallbacks_witness :
  inherited "Zz" = false /\
  color (createAtom "Zz" 0 0 0 0) = Some "#ff00ff"%string /\
  radius (createAtom "Zz" 0 0 0 0) = Some 1.0 /\
  Some (props_or_Cu "Zz") = ELEMENT_PROPERTIES !! "Cu"%string.
Proof.
  destruct (C3_fallbacks "Zz" 0 0 0 0 eq_refl) as (Hc & Hr & Hp & _).
  split; [reflexivity|].
  split; [apply Hc; reflexivity|].
  split; [apply Hr; reflexivity|apply Hp; reflexivity].
Defined.

(** ** The loops of the slab builder *)

Lemma fold_left_seq_invariant {S : Type} (I : nat -> S -> Prop)
      (body : nat -> S -> S) n : forall a s,
  I a s ->
  (forall i s, (a <= i < a + n)%nat -> I i s -> I (Datatypes.S i) (body i s)) ->
  I (a + n)%nat (fold_left (fun s i => body i s) (seq a n) s).
Proof.
  induction n as [|n IH]; intros a s Hs Hbody; simpl.
  - rewrite Nat.add_0_r. exact Hs.
  - replace (a + Datatypes.S n)%nat with (Datatypes.S a + n)%nat by lia.
    apply IH.
    + apply Hbody; [lia|exact Hs].
    + intros i s' Hi. apply Hbody. lia.
Qed.

(** Loop invariants: [I i] holds before the iteration of index [i]. *)
Lemma for_range_invariant {S : Type} (I : nat -> S -> Prop)
      (body : nat -> S -> S) n s :
  I 0%nat s ->
  (forall i s, (i < n)%nat -> I i s -> I (Datatypes.S i) (body i s)) ->
  I n (for_range n body s).
Proof.
  intros Hs Hbody. unfold for_range.
  apply (fold_left_seq_invariant I body n 0%nat s Hs).
  intros i s' Hi. apply Hbody. lia.
Qed.

(** Pushing the atom of id [m] in layer [k]. *)
Lemma layered_push per_layer spacing m k atoms e x y :
  (m / per_layer = k)%nat ->
  layered per_layer spacing m (atoms, m) ->
  layered per_layer spacing (S m)
          (atoms ++ [createAtom e x y (INR k * spacing) m], S m).
Proof.
  intros Hk (_ & Hlen & Hat). simpl in Hlen, Hat.
  split; [reflexivity|]. split.
  - simpl. rewrite length_app. simpl. lia.
  - simpl. intros n atom Hn.
    destruct (decide (n < m)%nat) as [Hlt|Hge].
    + rewrite lookup_app_l in Hn by lia. apply Hat. exact Hn.
    + rewrite lookup_app_r in Hn by lia.
      rewrite Hlen in Hn.
      destruct (n - m)%nat as [|d] eqn:Hd; simpl in Hn; [|discriminate Hn].
      injection Hn as <-.
      assert (n = m) as -> by lia.
      simpl. rewrite Hk. split; reflexivity.
Qed.

Lemma layered_state per_layer spacing m st :
  layered per_layer spacing m st -> st = (fst st, m).
Proof. intros (Hid & _). destruct st; simpl in *. congruence. Qed.

Lemma layer_of_cell (per_layer k r : nat) :
  (r < per_layer)%nat -> ((per_layer * k + r) / per_layer = k)%nat.
Proof.
  intros Hr. symmetry. apply (Nat.div_unique _ _ k r); [exact Hr|reflexivity].
Qed.

(** The (111) slab: 72 atoms in 4 layers of 18, [a / sqrt 3] apart. *)
Lemma fcc111_layered e a :
  layered 18 (a / sqrt 3) 72 (fst (fcc111 e a), 72%nat).
Proof.
  unfold fcc111. cbv zeta.
  match goal with
  | |- context [for_range 4 ?body ?s0] =>
      assert (H : layered 18 (a / sqrt 3) 72 (for_range 4 body s0))
  end.
  { apply (for_range_invariant (fun k => layered 18 (a / sqrt 3) (18 * k))).
    { split; [reflexivity|]. split; [reflexivity|]. intros n atom Hn. discriminate Hn. }
    intros k s Hk Hs.
    replace (18 * S k)%nat with (18 * k + 6 * 3)%nat by lia.
    apply (for_range_invariant
             (fun j => layered 18 (a / sqrt 3) (18 * k + 6 * j))).
    { rewrite Nat.mul_0_r, Nat.add_0_r. exact Hs. }
    intros j s1 Hj Hs1.
    replace (18 * k + 6 * S j)%nat with (18 * k + 6 * j + 2 * 3)%nat by lia.
    apply (for_range_invariant
             (fun i => layered 18 (a / sqrt 3) (18 * k + 6 * j + 2 * i))).
    { rewrite Nat.mul_0_r, Nat.add_0_r. exact Hs1. }
    intros i s2 Hi Hs2.
    destruct s2 as [atoms0 id0].
    pose proof (proj1 Hs2) as E. cbn [snd] in E. subst id0.
    replace (18 * k + 6 * j + 2 * S i)%nat
      with (S (S (18 * k + 6 * j + 2 * i)))%nat by lia.
    unfold Math_sqrt.
    apply layered_push.
    { replace (S (18 * k + 6 * j + 2 * i))%nat
        with (18 * k + (6 * j + 2 * i + 1))%nat by lia.
      apply layer_of_cell. lia. }
    apply layered_push; [|exact Hs2].
    rewrite <- Nat.add_assoc. apply layer_of_cell. lia. }
  rewrite (layered_state _ _ _ _ H) in H |- *. exact H.
Qed.

(** The other slab: 64 atoms in 4 layers of 16, [a / 2] apart. *)
Lemma fcc100_layered e a :
  layered 16 (a / 2) 64 (fst (fcc100 e a), 64%nat).
Proof.
  unfold fcc100. cbv zeta.
  match goal with
  | |- context [for_range 4 ?body ?s0] =>
      assert (H : layered 16 (a / 2) 64 (for_range 4 body s0))
  end.
  { apply (for_range_invariant (fun k => layered 16 (a / 2) (16 * k))).
    { split; [reflexivity|]. split; [reflexivity|]. intros n atom Hn. discriminate Hn. }
    intros k s Hk Hs.
    replace (16 * S k)%nat with (16 * k + 4 * 4)%nat by lia.
    apply (for_range_invariant (fun j => layered 16 (a / 2) (16 * k + 4 * j))).
    { rewrite Nat.mul_0_r, Nat.add_0_r. exact Hs. }
    intros j s1 Hj Hs1.
    replace (16 * k + 4 * S j)%nat with (16 * k + 4 * j + 4)%nat by lia.
    apply (for_range_invariant (fun i => layered 16 (a / 2) (16 * k + 4 * j + i))).
    { rewrite Nat.add_0_r. exact Hs1. }
    intros i s2 Hi Hs2.
    destruct s2 as [atoms0 id0].
    pose proof (proj1 Hs2) as E. cbn [snd] in E. subst id0.
    replace (16 * k + 4 * j + S i)%nat with (S (16 * k + 4 * j + i))%nat by lia.
    apply layered_push; [|exact Hs2].
    rewrite <- Nat.add_assoc. apply layer_of_cell. lia. }
  rewrite (layered_state _ _ _ _ H) in H |- *. exact H.
Qed.

(** ** The query parser *)

Lemma append_nil_l s : ("" +:+ s)%string = s.
Proof. reflexivity. Qed.

Lemma append_cons c p s : (String c p +:+ s)%string = String c (p +:+ s).
Proof. reflexivity. Qed.

Lemma length_append_le p s :
  (String.length s <= String.length (p +:+ s))%nat.
Proof.
  induction p as [|c p IH]; [rewrite append_nil_l; lia|].
  rewrite append_cons. simpl. lia.
Qed.

Lemma length_append_minus p s :
  (String.length (p +:+ s) - String.length s = String.length p)%nat.
Proof.
  induction p as [|c p IH].
  - rewrite append_nil_l. simpl. lia.
  - rewrite append_cons. pose proof (length_append_le p s). simpl. lia.
Qed.

Lemma substring_prefix p s : substring 0 (String.length p) (p +:+ s) = p.
Proof.
  induction p as [|c p IH].
  - rewrite append_nil_l. destruct s; reflexivity.
  - rewrite append_cons. simpl. rewrite IH. reflexivity.
Qed.

Lemma consumed_app p s : consumed (p +:+ s) s = p.
Proof. unfold consumed. rewrite length_append_minus. apply substring_prefix. Qed.

Lemma consumed_1 c s : consumed (String c s) s = String c "".
Proof. exact (consumed_app (String c "") s). Qed.

Lemma consumed_2 c1 c2 s :
  consumed (String c1 (String c2 s)) s = String c1 (String c2 "").
Proof. exact (consumed_app (String c1 (String c2 "")) s). Qed.

Lemma consumed_3 c1 c2 c3 s :
  consumed (String c1 (String c2 (String c3 s))) s
  = String c1 (String c2 (String c3 "")).
Proof. exact (consumed_app (String c1 (String c2 (String c3 ""))) s). Qed.

Lemma consumed_5 c1 c2 c3 c4 c5 s :
  consumed (String c1 (String c2 (String c3 (String c4 (String c5 s))))) s
  = String c1 (String c2 (String c3 (String c4 (String c5 "")))).
Proof.
  exact (consumed_app
           (String c1 (String c2 (String c3 (String c4 (String c5 ""))))) s).
Qed.

Lemma match_here_element q :
  match_here (body element_pattern) q
  = (fun sym => [sym; sym]) <$> leading_symbol q.
Proof.
  unfold match_here. destruct q as [|c1 rest]; [reflexivity|].
  simpl. destruct (in_class "A" "Z" c1); [|reflexivity].
  destruct rest as [|c2 rest].
  - rewrite consumed_1. reflexivity.
  - destruct (in_class "a" "z" c2).
    + rewrite consumed_2. reflexivity.
    + rewrite consumed_1. reflexivity.
Qed.

Lemma parse_element_spec q : parse_element q = default "Cu"%string (leading_symbol q).
Proof.
  unfold parse_element, String_match. simpl anchored.
  rewrite match_here_element. destruct (leading_symbol q); reflexivity.
Qed.

Lemma match_here_face q :
  match_here (body face_pattern) q
  = (fun g => [("(" +:+ g +:+ ")")%string; g]) <$> group_at_head q.
Proof.
  unfold match_here.
  destruct q as [|p [|d1 [|d2 [|d3 [|p' rest]]]]];
    cbn -[Ascii.eqb in_class consumed];
    repeat (match goal with
            | |- context [Ascii.eqb ?a ?b] =>
                destruct (Ascii.eqb_spec a b); subst
            | |- context [in_class ?l ?h ?c] =>
                destruct (in_class l h c) eqn:?
            end; cbn -[Ascii.eqb in_class consumed]);
    try reflexivity; try congruence.
  rewrite consumed_3, consumed_5. reflexivity.
Qed.

Lemma search_face q :
  search (body face_pattern) q
  = (fun g => [("(" +:+ g +:+ ")")%string; g]) <$> first_group q.
Proof.
  induction q as [|c q IH].
  - reflexivity.
  - cbn [search first_group]. rewrite match_here_face.
    destruct (group_at_head (String c q)); [reflexivity|].
    exact IH.
Qed.

Lemma parse_face_spec q : parse_face q = default "111"%string (first_group q).
Proof.
  unfold parse_face, String_match. simpl anchored.
  rewrite search_face. destruct (first_group q); reflexivity.
Qed.

(** What [first_group] finds is a parenthesized group of three digits of the
    query, and it finds one whenever there is one. *)
Lemma group_at_head_Some q g :
  group_at_head q = Some g ->
  exists post, q = ("(" +:+ g +:+ ")" +:+ post)%string /\ three_digits g.
Proof.
  destruct q as [|p [|d1 [|d2 [|d3 [|p' rest]]]]]; try discriminate.
  cbn -[Ascii.eqb in_class].
  destruct (Ascii.eqb_spec p "("); [subst|discriminate].
  destruct (in_class "0" "9" d1) eqn:H1; [|discriminate].
  destruct (in_class "0" "9" d2) eqn:H2; [|discriminate].
  destruct (in_class "0" "9" d3) eqn:H3; [|discriminate].
  destruct (Ascii.eqb_spec p' ")"); [subst|discriminate].
  cbn. intros H. injection H as <-.
  exists rest. split; [reflexivity|].
  exists d1, d2, d3. repeat split; assumption.
Qed.

Lemma group_at_head_complete g post :
  three_digits g -> group_at_head ("(" +:+ g +:+ ")" +:+ post)%string = Some g.
Proof.
  intros (d1 & d2 & d3 & -> & H1 & H2 & H3).
  change (group_at_head
            (String "(" (String d1 (String d2 (String d3 (String ")" post)))))
          = Some (String d1 (String d2 (String d3 "")))).
  cbn -[in_class]. rewrite H1, H2, H3. reflexivity.
Qed.

Lemma first_group_Some q g : first_group q = Some g -> has_group q g.
Proof.
  induction q as [|c q IH]; cbn [first_group].
  - discriminate.
  - destruct (group_at_head (String c q)) as [g'|] eqn:Hhead.
    + intros H. injection H as ->.
      apply group_at_head_Some in Hhead as (post & Hq & Hg).
      exists ""%string, post. split; [exact Hq|exact Hg].
    + intros H. destruct (IH H) as (pre & post & Hq & Hg).
      exists (String c pre), post. split; [|exact Hg].
      rewrite Hq. reflexivity.
Qed.

Lemma first_group_None q : first_group q = None -> forall g, ~ has_group q g.
Proof.
  intros Hnone g (pre & post & -> & Hg).
  induction pre as [|c pre IH].
  - rewrite append_nil_l in Hnone.
    destruct ("(" +:+ g +:+ ")" +:+ post)%string eqn:Hq;
      cbn [first_group] in Hnone;
      rewrite <- Hq, (group_at_head_complete g post Hg) in Hnone;
      discriminate Hnone.
  - rewrite append_cons in Hnone. cbn [first_group] in Hnone.
    destruct (group_at_head _); [discriminate Hnone|].
    apply IH. exact Hnone.
Qed.

(** ** What the parser returns *)

Lemma leading_symbol_element_symbol q e :
  leading_symbol q = Some e -> element_symbol e.
Proof.
  destruct q as [|c1 rest]; [discriminate|]. simpl.
  destruct (in_class "A" "Z" c1) eqn:H1; [|discriminate].
  destruct rest as [|c2 rest].
  - intros H. injection H as <-. exists c1. split; [exact H1|left; reflexivity].
  - destruct (in_class "a" "z" c2) eqn:H2; intros H; injection H as <-;
      exists c1; (split; [exact H1|]).
    + right. exists c2. split; [exact H2|reflexivity].
    + left. reflexivity.
Qed.

Lemma parse_element_symbol q : element_symbol (parse_element q).
Proof.
  rewrite parse_element_spec.
  destruct (leading_symbol q) as [e|] eqn:He.
  - eapply leading_symbol_element_symbol. exact He.
  - exists "C"%char. split; [reflexivity|].
    right. exists "u"%char. split; reflexivity.
Qed.

(** The parsed element is never the name of a property that objects
    inherit: those names start with a lower-case letter or an underscore. *)
Lemma element_symbol_own e : element_symbol e -> inherited e = false.
Proof.
  intros (c1 & H1 & He).
  assert (Hc : forall rest, inherited (String c1 rest) = false).
  { intros rest. unfold inherited, Object_prototype.
    cbn [existsb String.eqb].
    destruct (Ascii.eqb_spec c1 "c") as [->|_]; [discriminate H1|].
    destruct (Ascii.eqb_spec c1 "_") as [->|_]; [discriminate H1|].
    destruct (Ascii.eqb_spec c1 "h") as [->|_]; [discriminate H1|].
    destruct (Ascii.eqb_spec c1 "i") as [->|_]; [discriminate H1|].
    destruct (Ascii.eqb_spec c1 "p") as [->|_]; [discriminate H1|].
    destruct (Ascii.eqb_spec c1 "t") as [->|_]; [discriminate H1|].
    destruct (Ascii.eqb_spec c1 "v") as [->|_]; [discriminate H1|].
    reflexivity. }
  destruct He as [->|(c2 & _ & ->)]; apply Hc.
Qed.

Lemma parse_element_own q : inherited (parse_element q) = false.
Proof. apply element_symbol_own, parse_element_symbol. Qed.

(** ** The fields of a built structure *)

Lemma generateSlabStructure_formula q :
  formula (generateSlabStructure q) = parse_element q.
Proof.
  unfold generateSlabStructure. cbv zeta.
  destruct (if decide (parse_face q = "111"%string) then _ else _); reflexivity.
Qed.

Lemma generateSlabStructure_millerIndex q :
  millerIndex (generateSlabStructure q)
  = Some ("(" +:+ parse_face q +:+ ")")%string.
Proof.
  unfold generateSlabStructure. cbv zeta.
  destruct (if decide (parse_face q = "111"%string) then _ else _); reflexivity.
Qed.

Lemma generateSlabStructure_atoms q :
  atoms (generateSlabStructure q)
  = let a := latticeConstant (props_or_Cu (parse_element q)) in
    if decide (parse_face q = "111"%string)
    then fst (fcc111 (parse_element q) a)
    else fst (fcc100 (parse_element q) a).
Proof.
  unfold generateSlabStructure. cbv zeta.
  destruct (decide (parse_face q = "111"%string));
    match goal with
    | |- context [let '(_, _) := ?p in _] => destruct p
    end; reflexivity.
Qed.

Lemma generateSlabStructure_latticeVectors q :
  latticeVectors (generateSlabStructure q)
  = let a := latticeConstant (props_or_Cu (parse_element q)) in
    Some (if decide (parse_face q = "111"%string)
          then snd (fcc111 (parse_element q) a)
          else snd (fcc100 (parse_element q) a)).
Proof.
  unfold generateSlabStructure. cbv zeta.
  destruct (decide (parse_face q = "111"%string));
    match goal with
    | |- context [let '(_, _) := ?p in _] => destruct p
    end; reflexivity.
Qed.

Lemma fcc111_latticeVectors e a :
  snd (fcc111 e a)
  = [ [a / sqrt 2 * INR 3; 0; 0];
      [0; a * sqrt 6 / 2 * INR 3; 0];
      [0; 0; a / sqrt 3 * INR 4 + 10] ].
Proof.
  unfold fcc111. cbv zeta.
  match goal with
  | |- context [let '(_, _) := ?p in _] => destruct p
  end. reflexivity.
Qed.

Lemma fcc100_latticeVectors e a :
  snd (fcc100 e a)
  = [ [a / sqrt 2 * INR 4; 0; 0];
      [0; a / sqrt 2 * INR 4; 0];
      [0; 0; a / sqrt 2 * sqrt 2 * 0.5 * INR 4 + 10] ].
Proof.
  unfold fcc100. cbv zeta.
  match goal with
  | |- context [let '(_, _) := ?p in _] => destruct p
  end. reflexivity.
Qed.

(** Every record the physical lookup can return is one of the table. *)
Lemma props_or_Cu_in_table e :
  inherited e = false ->
  props_or_Cu e ∈ [ mkElement 4.078 "mp-81" 2.54; mkElement 4.085 "mp-124" 1.93;
                    mkElement 3.615 "mp-30" 1.90; mkElement 3.924 "mp-126" 2.28;
                    mkElement 3.890 "mp-2" 2.20; mkElement 3.524 "mp-23" 1.91;
                    mkElement 4.049 "mp-134" 1.61 ].
Proof.
  intros Hown. unfold props_or_Cu, lookup_or_Cu, Object_get.
  destruct (ELEMENT_PROPERTIES !! e) as [p|] eqn:He; [|rewrite Hown].
  - apply elem_of_list_to_map_2 in He.
    repeat (apply elem_of_cons in He as [He|He];
            [injection He as _ ->; set_solver|]).
    inversion He.
  - set_solver.
Qed.

Lemma latticeConstant_pos q : 0 < latticeConstant (props_or_Cu (parse_element q)).
Proof.
  pose proof (props_or_Cu_in_table _ (parse_element_own q)) as H.
  repeat (apply elem_of_cons in H as [->|H]; [simpl; lra|]).
  inversion H.
Qed.

Lemma props_Cu : props_or_Cu "Cu" = mkElement 3.615 "mp-30" 1.90.
Proof. reflexivity. Qed.

(** ** Properties of the slab builder *)

(** The number of atoms and the layers of a slab, on each path. *)
Lemma slab_atoms q :
  let s := generateSlabStructure q in
  let a := latticeConstant (props_or_Cu (formula s)) in
  (parse_face q = "111"%string ->
   length (atoms s) = 72%nat /\
   forall n atom, atoms s !! n = Some atom ->
                  z atom = INR (n / 18) * (a / sqrt 3)) /\
  (parse_face q <> "111"%string ->
   length (atoms s) = 64%nat /\
   forall n atom, atoms s !! n = Some atom ->
                  z atom = INR (n / 16) * (a / 2)).
Proof.
  cbv zeta. rewrite generateSlabStructure_formula, generateSlabStructure_atoms.
  cbv zeta. split.
  - intros Hface. destruct (decide (parse_face q = "111"%string)); [|contradiction].
    destruct (fcc111_layered (parse_element q)
                (latticeConstant (props_or_Cu (parse_element q))))
      as (_ & Hlen & Hat).
    split; [exact Hlen|]. intros k atom Hk. apply Hat. exact Hk.
  - intros Hface. destruct (decide (parse_face q = "111"%string)); [contradiction|].
    destruct (fcc100_layered (parse_element q)
                (latticeConstant (props_or_Cu (parse_element q))))
      as (_ & Hlen & Hat).
    split; [exact Hlen|]. intros k atom Hk. apply Hat. exact Hk.
Qed.

(** C4: a query whose Miller index parses to 111 gives 2 x 3 x 3 x 4 = 72
    atoms, whatever the element; any other Miller index gives 4 x 4 x 4 = 64
    atoms, whose layers of 16 are a / 2 apart.  For "Cu(100)": element Cu,
    Miller index (100), 64 atoms, a = 3.615 and layers 1.8075 apart. *)
Theorem C4_atom_counts q :
  let s := generateSlabStructure q in
  let a := latticeConstant (props_or_Cu (formula s)) in
  (parse_face q = "111"%string ->
   length (atoms s) = (2 * 3 * 3 * 4)%nat /\ length (atoms s) = 72%nat) /\
  (parse_face q <> "111"%string ->
   length (atoms s) = (4 * 4 * 4)%nat /\ length (atoms s) = 64%nat /\
   forall n atom, atoms s !! n = Some atom ->
                  z atom = INR (n / 16) * (a / 2)) /\
  (let cu := generateSlabStructure "Cu(100)" in
   formula cu = "Cu"%string /\ millerIndex cu = Some "(100)"%string /\
   length (atoms cu) = 64%nat /\
   latticeConstant (props_or_Cu (formula cu)) = 3.615 /\
   forall n atom, atoms cu !! n = Some atom -> z atom = INR (n / 16) * 1.8075).
Proof.
  cbv zeta. destruct (slab_atoms q) as [H111 H100]. cbv zeta in H111, H100.
  split; [|split].
  - intros Hface. destruct (H111 Hface) as [Hlen _]. split; exact Hlen.
  - intros Hface. destruct (H100 Hface) as [Hlen Hz].
    split; [exact Hlen|]. split; [exact Hlen|exact Hz].
  - assert (Hface : parse_face "Cu(100)" <> "111"%string).
    { intros H. vm_compute in H. discriminate H. }
    destruct (slab_atoms "Cu(100)") as [_ Hcu]. cbv zeta in Hcu.
    destruct (Hcu Hface) as [Hlen Hz]. clear Hcu.
    rewrite generateSlabStructure_formula in *.
    rewrite generateSlabStructure_millerIndex.
    change (parse_element "Cu(100)") with "Cu"%string in *.
    rewrite props_Cu in *.
    split; [reflexivity|]. split; [reflexivity|]. split; [exact Hlen|].
    split; [reflexivity|].
    intros n atom Hn. rewrite (Hz n atom Hn).
    cbn [latticeConstant mkElement]. lra.
Qed.

Lemma C4_atom_counts_witness :
  length (atoms (generateSlabStructure "Au(111)")) = 72%nat /\
  length (atoms (generateSlabStructure "Pt(110)")) = 64%nat.
Proof.
  split.
  - destruct (C4_atom_counts "Au(111)") as (H111 & _ & _).
    apply H111. reflexivity.
  - destruct (C4_atom_counts "Pt(110)") as (_ & H100 & _).
    apply H100. intros H. vm_compute in H. discriminate H.
Defined.

Lemma magnitude_normal c : 0 <= c -> magnitude [0; 0; c] = c.
Proof.
  intros Hc. unfold magnitude. simpl.
  replace (0 * 0 + (0 * 0 + (c * c + 0))) with (c * c) by ring.
  apply sqrt_square. exact Hc.
Qed.

Lemma sqrt_pos_lt (x : R) : 0 < x -> 0 < sqrt x.
Proof. intros Hx. apply sqrt_lt_R0. exact Hx. Qed.

(** C7: a built structure has exactly three lattice vectors, and the length
    of the third, the surface normal, is the height of the four layers plus
    the vacuum of 10 A; the layers are a / sqrt 3 apart on the 111 path
    and a / 2 apart on the other path. *)
Theorem C7_lattice_vectors q :
  let s := generateSlabStructure q in
  let a := latticeConstant (props_or_Cu (formula s)) in
  let is111 := bool_decide (parse_face q = "111"%string) in
  let spacing := if is111 then a / sqrt 3 else a / 2 in
  let per_layer := if is111 then 18%nat else 16%nat in
  exists v1 v2 v3,
    latticeVectors s = Some [v1; v2; v3] /\
    magnitude v3 = sum_of_spacings 4 spacing + 10 /\
    length (atoms s) = (4 * per_layer)%nat /\
    forall n atom, atoms s !! n = Some atom ->
                   z atom = INR (n / per_layer) * spacing.
Proof.
  cbv zeta.
  rewrite generateSlabStructure_formula, generateSlabStructure_atoms,
    generateSlabStructure_latticeVectors.
  cbv zeta.
  pose proof (latticeConstant_pos q) as Ha.
  set (a := latticeConstant (props_or_Cu (parse_element q))) in *.
  destruct (decide (parse_face q = "111"%string)) as [Hf|Hf].
  - rewrite (bool_decide_eq_true_2 _ Hf).
    rewrite fcc111_latticeVectors.
    destruct (fcc111_layered (parse_element q) a) as (_ & Hlen & Hat).
    do 3 eexists. split; [reflexivity|].
    split; [|split; [exact Hlen|intros n atom Hn; apply Hat; exact Hn]].
    assert (Hsp : 0 < a / sqrt 3).
    { apply Rdiv_lt_0_compat; [exact Ha|apply sqrt_pos_lt; lra]. }
    rewrite magnitude_normal; unfold sum_of_spacings; simpl; lra.
  - rewrite (bool_decide_eq_false_2 _ Hf).
    rewrite fcc100_latticeVectors.
    destruct (fcc100_layered (parse_element q) a) as (_ & Hlen & Hat).
    do 3 eexists. split; [reflexivity|].
    split; [|split; [exact Hlen|intros n atom Hn; apply Hat; exact Hn]].
    assert (Hd : a / sqrt 2 * sqrt 2 = a).
    { field. apply Rgt_not_eq. apply sqrt_pos_lt. lra. }
    rewrite Hd.
    rewrite magnitude_normal; unfold sum_of_spacings; simpl; lra.
Qed.

Lemma C7_lattice_vectors_witness :
  exists v1 v2 v3,
    latticeVectors (generateSlabStructure "Cu(100)") = Some [v1; v2; v3] /\
    magnitude v3 = sum_of_spacings 4 (3.615 / 2) + 10.
Proof.
  destruct (C7_lattice_vectors "Cu(100)") as (v1 & v2 & v3 & Hv & Hm & _).
  exists v1, v2, v3. split; [exact Hv|].
  rewrite Hm. reflexivity.
Defined.

(** ** The parser, as a whole *)

(** C6: the builder reads the element symbol as the leading upper-case
    letter with the lower-case letter that may follow, and the Miller index
    as the first parenthesized group of three digits; where there is none it
    falls back on Cu and on 111, so it never fails.  "Au(111)" gives formula
    Au and Miller index (111); "garbage" gives Cu and (111). *)
Theorem C6_parsing q :
  formula (generateSlabStructure q) = default "Cu"%string (leading_symbol q) /\
  millerIndex (generateSlabStructure q)
  = Some ("(" +:+ default "111"%string (first_group q) +:+ ")")%string /\
  (forall g, first_group q = Some g -> has_group q g) /\
  ((forall g, ~ has_group q g) -> first_group q = None) /\
  (leading_symbol q = None -> first_group q = None ->
   formula (generateSlabStructure q) = "Cu"%string /\
   millerIndex (generateSlabStructure q) = Some "(111)"%string) /\
  (formula (generateSlabStructure "Au(111)") = "Au"%string /\
   millerIndex (generateSlabStructure "Au(111)") = Some "(111)"%string) /\
  (formula (generateSlabStructure "garbage") = "Cu"%string /\
   millerIndex (generateSlabStructure "garbage") = Some "(111)"%string).
Proof.
  rewrite !generateSlabStructure_formula, !generateSlabStructure_millerIndex.
  rewrite !parse_element_spec, !parse_face_spec.
  split; [reflexivity|]. split; [reflexivity|].
  split; [intros g; apply first_group_Some|].
  split.
  { intros Hno. destruct (first_group q) as [g|] eqn:Hg; [|reflexivity].
    exfalso. apply (Hno g). apply first_group_Some. exact Hg. }
  split; [intros -> ->; split; reflexivity|].
  split; split; reflexivity.
Qed.

Lemma C6_parsing_witness :
  leading_symbol "garbage" = None /\ first_group "garbage" = None /\
  formula (generateSlabStructure "garbage") = "Cu"%string /\
  millerIndex (generateSlabStructure "garbage") = Some "(111)"%string.
Proof.
  split; [reflexivity|]. split; [reflexivity|].
  destruct (C6_parsing "garbage") as (_ & _ & _ & _ & Hfallback & _).
  apply Hfallback; reflexivity.
Defined.

(** * Further properties of the engine *)

(** ** The maximum of the heights *)

Lemma Math_max_fold_bound l : forall r m,
  fold_left (fun m z => match m with
                        | NegInfinity => Fin z
                        | Fin r => Fin (Rmax r z)
                        end) l (Fin r) = Fin m ->
  r <= m /\ forall x, In x l -> x <= m.
Proof.
  induction l as [|z l IH]; intros r m Hm; simpl in Hm.
  - injection Hm as <-. split; [lra|intros x []].
  - destruct (IH _ _ Hm) as [Hr Hl].
    pose proof (Rmax_l r z). pose proof (Rmax_r r z).
    split; [lra|]. intros x [<-|Hx]; [lra|apply Hl; exact Hx].
Qed.

Lemma Math_max_spec l :
  l <> [] ->
  exists m, Math_max l = Fin m /\ In m l /\ forall x, In x l -> x <= m.
Proof.
  destruct l as [|z l]; [congruence|]. intros _.
  destruct (Math_max_cons z l) as (m & Hm & Hin).
  exists m. split; [exact Hm|]. split; [exact Hin|].
  unfold Math_max in Hm. simpl in Hm.
  destruct (Math_max_fold_bound l z m Hm) as [Hz Hl].
  intros x [<-|Hx]; [exact Hz|apply Hl; exact Hx].
Qed.

(** ** The shape of the candidate list *)

Section Shape.

Variable random : nat -> R.

Lemma top_sites_no_hollow surf sites n sites' n' :
  Forall (fun c => type c <> Hollow) sites ->
  top_sites random surf sites n = Return sites' n' ->
  Forall (fun c => type c <> Hollow) sites'.
Proof.
  unfold top_sites. intros Hs Hrun.
  eapply foldM_invariant; [|exact Hs|exact Hrun].
  clear. intros s a n s' n' _ Hs Hbody.
  apply bind_Return in Hbody as (r & m & _ & Hbody).
  destruct (decide (r > 0.7));
    unfold ret in Hbody; injection Hbody as <- _; [exact Hs|].
  apply Forall_app. split; [exact Hs|].
  constructor; [discriminate|constructor].
Qed.

Lemma bridge_sites_no_hollow surf sites n sites' n' :
  Forall (fun c => type c <> Hollow) sites ->
  bridge_sites random surf sites n = Return sites' n' ->
  Forall (fun c => type c <> Hollow) sites'.
Proof.
  unfold bridge_sites, for_rangeM. intros Hs Hrun.
  eapply foldM_invariant; [|exact Hs|exact Hrun].
  clear. intros s i n s' n' _ Hs Hinner.
  eapply foldM_invariant; [|exact Hs|exact Hinner].
  clear. intros s j n s' n' _ Hs Hbody.
  apply bind_Return in Hbody as (a1 & m1 & _ & Hbody).
  apply bind_Return in Hbody as (a2 & m2 & _ & Hbody).
  destruct (bool_decide (distance a1 a2 < 3.0) && bool_decide (distance a1 a2 > 2.0)).
  - apply bind_Return in Hbody as (r & m & _ & Hbody).
    destruct (decide (r > 0.8));
      unfold ret in Hbody; injection Hbody as <- _; [|exact Hs].
    apply Forall_app. split; [exact Hs|].
    constructor; [discriminate|constructor].
  - unfold ret in Hbody. injection Hbody as <- _. exact Hs.
Qed.

Lemma hollow_sites_shape surf maxY sites n sites' n' :
  hollow_sites surf maxY sites n = Return sites' n' ->
  n' = n /\
  (((length sites < 5)%nat /\
    exists a0, surf !! 0%nat = Some a0 /\ sites' = sites ++ [hollow_site a0 maxY]) \/
   ((5 <= length sites)%nat /\ sites' = sites)).
Proof.
  unfold hollow_sites. destruct (length sites <? 5)%nat eqn:Hlen; intros Hrun.
  - apply Nat.ltb_lt in Hlen.
    apply bind_Return in Hrun as (a0 & m & H0 & Hrun).
    apply element_at_Return in H0 as [H0 ->].
    unfold ret in Hrun. injection Hrun as <- <-.
    split; [reflexivity|]. left. split; [exact Hlen|].
    exists a0. split; [exact H0|reflexivity].
  - apply Nat.ltb_ge in Hlen.
    unfold ret in Hrun. injection Hrun as <- <-.
    split; [reflexivity|]. right. split; [exact Hlen|reflexivity].
Qed.

(** What a returning run has computed, stage by stage. *)
Lemma analyze_Return_shape s ads n res n' :
  calculateAdsorptionPhysics random s ads n = Return res n' ->
  exists found hollows scoreds m,
    Forall (fun c => type c <> Hollow) found /\
    ((hollows = [] /\ (5 <= length found)%nat) \/
     ((exists a0, hollows = [hollow_site a0 (surface_maxY s)]) /\
      (length found < 5)%nat)) /\
    Forall2 (scored random (base_binding s ads)) (found ++ hollows) scoreds /\
    scored_candidates random s ads n = Return scoreds m /\
    sites res = slice0 8 (Array_sort by_energy scoreds).
Proof.
  unfold calculateAdsorptionPhysics, scored_candidates. intros Hrun.
  apply bind_Return in Hrun as (s1 & n1 & H1 & Hrun).
  apply bind_Return in Hrun as (s2 & n2 & H2 & Hrun).
  apply bind_Return in Hrun as (s3 & n3 & H3 & Hrun).
  apply bind_Return in Hrun as (s4 & n4 & H4 & Hrun).
  apply bind_Return in Hrun as (r & n5 & _ & Hrun).
  unfold ret in Hrun. injection Hrun as <- _.
  rewrite (bind_Return_l _ _ _ _ _ H1), (bind_Return_l _ _ _ _ _ H2),
    (bind_Return_l _ _ _ _ _ H3).
  assert (Hfound : Forall (fun c => type c <> Hollow) s2).
  { eapply bridge_sites_no_hollow; [|exact H2].
    eapply top_sites_no_hollow; [|exact H1]. constructor. }
  apply update_energies_scored in H4 as Hsc.
  apply hollow_sites_shape in H3 as (_ & [(Hlen & a0 & _ & ->)|(Hlen & ->)]).
  - exists s2, [hollow_site a0 (surface_maxY s)], s4, n4.
    split; [exact Hfound|]. split; [right; split; [eexists; reflexivity|exact Hlen]|].
    split; [exact Hsc|]. split; [exact H4|reflexivity].
  - exists s2, [], s4, n4.
    split; [exact Hfound|]. split; [left; split; [reflexivity|exact Hlen]|].
    rewrite app_nil_r. split; [exact Hsc|]. split; [exact H4|reflexivity].
Qed.

End Shape.

(** ** Ranking and truncation *)

Lemma StronglySorted_firstn_skipn {A : Type} (Rel : A -> A -> Prop) n : forall l,
  StronglySorted Rel l ->
  forall a b, In a (firstn n l) -> In b (skipn n l) -> Rel a b.
Proof.
  induction n as [|n IH]; intros l Hl a b Ha Hb; simpl in Ha; [destruct Ha|].
  destruct Hl as [|c l Hl Hc]; [destruct Ha|].
  simpl in Hb. destruct Ha as [<-|Ha].
  - rewrite List.Forall_forall in Hc. apply Hc.
    rewrite <- (firstn_skipn n l). apply in_or_app. right. exact Hb.
  - eapply IH; eassumption.
Qed.

Lemma le_energy_transitive a b c :
  le_energy a b -> le_energy b c -> le_energy a c.
Proof.
  unfold le_energy.
  destruct (energy a), (energy b), (energy c); simpl; try tauto. lra.
Qed.

Lemma le_energy_finite a : finite_energy a -> le_energy a a.
Proof. intros [e He]. unfold le_energy. rewrite He. simpl. lra. Qed.

Lemma Array_sort_StronglySorted l :
  Forall finite_energy l -> StronglySorted le_energy (Array_sort by_energy l).
Proof.
  intros Hfin. apply Sorted_StronglySorted; [|apply Array_sort_Sorted, Hfin].
  intros a b c. apply le_energy_transitive.
Qed.

(** Under a formula that is not the name of a built-in, the scored
    candidates have real energies. *)
Lemma scored_own_finite random s ads cs ss :
  inherited (formula s) = false ->
  Forall2 (scored random (base_binding s ads)) cs ss ->
  Forall finite_energy ss.
Proof.
  intros Hown Hsc. rewrite (base_binding_spec _ _ Hown) in Hsc.
  eapply scored_finite. exact Hsc.
Qed.

Lemma scored_type random base c s : scored random base c s -> type s = type c.
Proof. intros [k ->]. reflexivity. Qed.

Lemma Forall2_scored_hollow_count random base cs ss :
  Forall2 (scored random base) cs ss -> hollow_count ss = hollow_count cs.
Proof.
  unfold hollow_count. induction 1 as [|c s cs ss Hcs _ IH]; [reflexivity|].
  simpl. rewrite (scored_type _ _ _ _ Hcs).
  destruct (bool_decide (type c = Hollow)); simpl; rewrite IH; reflexivity.
Qed.

Lemma hollow_count_app l1 l2 :
  hollow_count (l1 ++ l2) = (hollow_count l1 + hollow_count l2)%nat.
Proof. unfold hollow_count. rewrite List.filter_app, length_app. reflexivity. Qed.

Lemma hollow_count_Permutation l1 l2 :
  Permutation l1 l2 -> hollow_count l1 = hollow_count l2.
Proof.
  unfold hollow_count. induction 1 as [|a l1 l2 _ IH|a b l|l1 l2 l3 _ IH1 _ IH2].
  - reflexivity.
  - simpl. destruct (bool_decide (type a = Hollow)); simpl; rewrite IH; reflexivity.
  - simpl. destruct (bool_decide (type a = Hollow));
      destruct (bool_decide (type b = Hollow)); reflexivity.
  - rewrite IH1. exact IH2.
Qed.

Lemma hollow_count_none l :
  Forall (fun c => type c <> Hollow) l -> hollow_count l = 0%nat.
Proof.
  unfold hollow_count. induction 1 as [|c l Hc _ IH]; [reflexivity|].
  simpl. rewrite (bool_decide_eq_false_2 _ Hc). exact IH.
Qed.

(** X1: building a slab and analysing it never fails: for every query,
    adsorbate and random source the engine returns a result on the structure
    the builder made. *)
Theorem build_then_analyze_returns random q ads n :
  exists res n', analyze random (generateSlabStructure q) ads n = Return res n'.
Proof.
  apply analyze_total.
  destruct (slab_atoms q) as [H111 H100]. cbv zeta in H111, H100.
  intros Hnil.
  destruct (decide (parse_face q = "111"%string)) as [Hf|Hf].
  - destruct (H111 Hf) as [Hlen _]. rewrite Hnil in Hlen. discriminate Hlen.
  - destruct (H100 Hf) as [Hlen _]. rewrite Hnil in Hlen. discriminate Hlen.
Qed.

(** X2: a result is never empty; and unless the formula is the name of a
    property objects inherit, its first site is the most stable of all the
    scored candidates of the run, whether kept or cut off. *)
Theorem first_site_is_most_stable random s ads n res n' :
  analyze random s ads n = Return res n' ->
  exists best all m,
    sites res !! 0%nat = Some best /\
    scored_candidates random s ads n = Return all m /\
    In best all /\
    (inherited (formula s) = false ->
     forall c, In c all -> number_le (energy best) (energy c)).
Proof.
  intros Hrun.
  apply analyze_Return_shape in Hrun
    as (found & hollows & all & m & _ & Hshape & Hsc & Hall & Hsites).
  pose proof (Array_sort_Permutation by_energy all) as Hperm.
  assert (Hsorted : inherited (formula s) = false ->
                    StronglySorted le_energy (Array_sort by_energy all) /\
                    Forall finite_energy all).
  { intros Hown. pose proof (scored_own_finite _ _ _ _ _ Hown Hsc) as Hfin.
    split; [apply Array_sort_StronglySorted|]; exact Hfin. }
  destruct (Array_sort by_energy all) as [|best sorted] eqn:Hsort.
  - exfalso. apply Permutation_nil in Hperm. subst all.
    apply Forall2_length in Hsc. rewrite length_app in Hsc. simpl in Hsc.
    destruct Hshape as [[_ Hlen]|[[a0 ->] _]]; simpl in Hsc; lia.
  - assert (Hbest : In best all).
    { apply (Permutation_in _ Hperm). left. reflexivity. }
    exists best, all, m. rewrite Hsites.
    split; [reflexivity|]. split; [exact Hall|]. split; [exact Hbest|].
    intros Hown c Hc. destruct (Hsorted Hown) as [Hss Hfin].
    apply (Permutation_in _ (Permutation_sym Hperm)) in Hc.
    destruct Hc as [<-|Hc].
    + apply le_energy_finite.
      rewrite List.Forall_forall in Hfin. apply Hfin. exact Hbest.
    + inversion Hss as [|? ? _ Hhead]; subst.
      rewrite List.Forall_forall in Hhead. apply Hhead. exact Hc.
Qed.

Lemma first_site_is_most_stable_witness :
  exists res best,
    analyze demo_random demo_structure "CO" 0%nat = Return res 7%nat /\
    sites res !! 0%nat = Some best.
Proof.
  destruct demo_run as (res & Hrun & _).
  destruct (first_site_is_most_stable demo_random demo_structure "CO" 0%nat
              res 7%nat Hrun)
    as (best & all & m & Hbest & _).
  exists res, best. split; [exact Hrun|exact Hbest].
Defined.

(** X3: The cut keeps eight of the scored candidates, or all of them when
    there are fewer; and unless the formula is the name of a property objects
    inherit, it keeps the most stable ones: no site left out is more stable
    than a site that is kept. *)
Theorem truncation_keeps_most_stable random s ads n res n' :
  analyze random s ads n = Return res n' ->
  exists all m dropped,
    scored_candidates random s ads n = Return all m /\
    Permutation (sites res ++ dropped) all /\
    length (sites res) = Nat.min 8 (length all) /\
    (inherited (formula s) = false ->
     forall a b, In a (sites res) -> In b dropped ->
                 number_le (energy a) (energy b)).
Proof.
  intros Hrun.
  apply analyze_Return_shape in Hrun
    as (found & hollows & all & m & _ & _ & Hsc & Hall & Hsites).
  exists all, m, (skipn 8 (Array_sort by_energy all)).
  rewrite Hsites. unfold slice0.
  split; [exact Hall|]. split; [|split].
  - rewrite firstn_skipn. apply Array_sort_Permutation.
  - rewrite length_firstn.
    rewrite (Permutation_length (Array_sort_Permutation by_energy all)).
    reflexivity.
  - intros Hown. apply (StronglySorted_firstn_skipn le_energy).
    apply Array_sort_StronglySorted.
    eapply scored_own_finite; eassumption.
Qed.

Lemma truncation_keeps_most_stable_witness :
  exists res all m dropped,
    analyze demo_random demo_structure "CO" 0%nat = Return res 7%nat /\
    scored_candidates demo_random demo_structure "CO" 0%nat = Return all m /\
    Permutation (sites res ++ dropped) all.
Proof.
  destruct demo_run as (res & Hrun & _).
  destruct (truncation_keeps_most_stable demo_random demo_structure "CO" 0%nat
              res 7%nat Hrun)
    as (all & m & dropped & Hall & Hperm & _).
  exists res, all, m, dropped.
  split; [exact Hrun|]. split; [exact Hall|exact Hperm].
Defined.

(** X4: Unless the formula is the name of a property objects inherit, the
    energies of a result are ordered by site type: with draws in [0, 1),
    every Hollow site is more stable than every Bridge site, and every
    Bridge site more stable than every Top site. *)
Theorem site_types_are_ranked random s ads n res n' a b :
  (forall k, 0 <= random k < 1) ->
  inherited (formula s) = false ->
  analyze random s ads n = Return res n' ->
  In a (sites res) -> In b (sites res) ->
  (type a = Hollow -> type b = Bridge -> number_lt (energy a) (energy b)) /\
  (type a = Bridge -> type b = Top -> number_lt (energy a) (energy b)) /\
  (type a = Hollow -> type b = Top -> number_lt (energy a) (energy b)).
Proof.
  intros Hrandom Hown Hrun Ha Hb.
  destruct (analyze_site_origin random s ads n res n' a Hrun Ha)
    as (ca & _ & ka & ->).
  destruct (analyze_site_origin random s ads n res n' b Hrun Hb)
    as (cb & _ & kb & ->).
  pose proof (Hrandom ka). pose proof (Hrandom kb).
  rewrite (base_binding_spec _ _ Hown).
  simpl. repeat split; intros Hta Htb; rewrite Hta, Htb;
    unfold site_factor; simpl; lra.
Qed.

Lemma site_types_are_ranked_witness :
  exists res,
    analyze demo_random demo_structure "CO" 0%nat = Return res 7%nat /\
    number_lt
      (energy (set_energy (hollow_site demo_a0 (Fin 0))
                 (site_energy (base_binding demo_structure "CO") (-0.8)
                              ((0.9 - 0.5) * 0.2))))
      (energy (set_energy (top_site demo_a0)
                 (site_energy (base_binding demo_structure "CO") 0.5
                              ((0.9 - 0.5) * 0.2)))).
Proof.
  destruct demo_run as (res & Hrun & Hsites).
  exists res. split; [exact Hrun|].
  refine (proj2 (proj2 (site_types_are_ranked demo_random demo_structure "CO"
                          0%nat res 7%nat
                          (set_energy (hollow_site demo_a0 (Fin 0))
                             (site_energy (base_binding demo_structure "CO") (-0.8)
                                          ((0.9 - 0.5) * 0.2)))
                          (set_energy (top_site demo_a0)
                             (site_energy (base_binding demo_structure "CO") 0.5
                                          ((0.9 - 0.5) * 0.2)))
                          demo_random_range eq_refl Hrun _ _))
            eq_refl eq_refl);
    rewrite Hsites; simpl; auto.
Defined.

(** X5: A result has at most one Hollow site, and one with fewer than five
    sites has exactly one: the fallback of the search. *)
Theorem hollow_fallback_count random s ads n res n' :
  analyze random s ads n = Return res n' ->
  (hollow_count (sites res) <= 1)%nat /\
  ((length (sites res) < 5)%nat -> hollow_count (sites res) = 1%nat).
Proof.
  intros Hrun.
  apply analyze_Return_shape in Hrun
    as (found & hollows & all & m & Hfound & Hshape & Hsc & _ & Hsites).
  pose proof (Array_sort_Permutation by_energy all) as Hperm.
  assert (Hcount : hollow_count (Array_sort by_energy all) = hollow_count hollows).
  { rewrite (hollow_count_Permutation _ _ Hperm).
    rewrite (Forall2_scored_hollow_count _ _ _ _ Hsc).
    rewrite hollow_count_app, (hollow_count_none _ Hfound). reflexivity. }
  assert (Hlen : length (Array_sort by_energy all)
                 = (length found + length hollows)%nat).
  { pose proof Hsc as Hl. apply Forall2_length in Hl.
    rewrite (Permutation_length Hperm), <- Hl, length_app. reflexivity. }
  rewrite Hsites. unfold slice0.
  set (sorted := Array_sort by_energy all) in *.
  assert (Hsplit : hollow_count sorted
                   = (hollow_count (firstn 8 sorted)
                      + hollow_count (skipn 8 sorted))%nat).
  { rewrite <- hollow_count_app, firstn_skipn. reflexivity. }
  assert (Hone : (hollow_count hollows <= 1)%nat /\
                 ((length found < 5)%nat -> hollow_count hollows = 1%nat)).
  { destruct Hshape as [[-> Hfive]|[[a0 ->] _]].
    - split; [unfold hollow_count; simpl; lia|lia].
    - split; [apply Nat.le_refl|reflexivity]. }
  destruct Hone as [Hle Hexact].
  split; [lia|].
  intros Hshort. rewrite length_firstn in Hshort.
  rewrite firstn_all2 by lia.
  rewrite Hcount. apply Hexact. lia.
Qed.

Lemma hollow_fallback_count_witness :
  exists res,
    analyze demo_random demo_structure "CO" 0%nat = Return res 7%nat /\
    hollow_count (sites res) = 1%nat.
Proof.
  destruct demo_run as (res & Hrun & Hsites).
  exists res. split; [exact Hrun|].
  apply (hollow_fallback_count demo_random demo_structure "CO" 0%nat res 7%nat Hrun).
  rewrite Hsites. simpl. lia.
Defined.

(** X21: A result never has more than eight sites.  Unless the formula is
    the name of a property objects inherit, its sites are in ascending order
    of energy.  When the formula is such a name, every energy is [NaN] and
    the result is the first eight candidates in the order they were found:
    the sort moves nothing. *)
Theorem sites_sorted_at_most_8 random s ads n res n' :
  analyze random s ads n = Return res n' ->
  (length (sites res) <= 8)%nat /\
  (inherited (formula s) = false -> ascending (sites res)) /\
  (inherited (formula s) = true ->
   Forall (fun site => energy site = NaN) (sites res) /\
   exists all m,
     scored_candidates random s ads n = Return all m /\
     sites res = firstn 8 all).
Proof.
  intros Hrun.
  apply analyze_Return_shape in Hrun
    as (found & hollows & all & m & _ & _ & Hsc & Hall & ->).
  unfold slice0. split; [apply firstn_le_length|]. split.
  - intros Hown. apply Sorted_ascending, Sorted_firstn, Array_sort_Sorted.
    eapply scored_own_finite; eassumption.
  - intros Hinh. rewrite (base_binding_inherited _ _ Hinh) in Hsc.
    apply scored_NaN in Hsc.
    rewrite (Array_sort_sorted by_energy all (NaN_in_order all Hsc)).
    split.
    + rewrite List.Forall_forall in Hsc |- *.
      intros site Hin. apply Hsc. eapply In_firstn. exact Hin.
    + exists all, m. split; [exact Hall|reflexivity].
Qed.

Lemma sites_sorted_at_most_8_witness :
  exists res,
    analyze demo_random demo_structure "CO" 0%nat = Return res 7%nat /\
    ascending (sites res) /\ (length (sites res) <= 8)%nat.
Proof.
  destruct demo_run as (res & Hrun & _).
  exists res. split; [exact Hrun|].
  destruct (sites_sorted_at_most_8 demo_random demo_structure "CO" 0%nat res
              7%nat Hrun) as (Hlen & Hasc & _).
  split; [apply Hasc; reflexivity|exact Hlen].
Defined.

(** X22: Unless the formula is the name of a property objects inherit, the
    energy of every returned site is base + offset + jitter, where base is
    minus half the gap between the electronegativity of the surface element
    (that of Cu for an element the table lacks) and that of the adsorbate
    (3.44 with an O, else 3.04 with an N, else 2.55, read off the label
    stripped of its digits), the offset is +0.5 for Top, -0.2 for Bridge and
    -0.8 for Hollow, and the jitter is (r - 0.5) * 0.2 for a draw r of the
    random source, so within +-0.1. *)
Theorem site_energy_formula random s ads n res n' site :
  (forall k, 0 <= random k < 1) ->
  inherited (formula s) = false ->
  analyze random s ads n = Return res n' ->
  In site (sites res) ->
  exists jitter,
    (exists k, jitter = (random k - 0.5) * 0.2) /\
    -0.1 <= jitter < 0.1 /\
    ((type site = Top /\ energy site = Num (spec_base s ads + 0.5 + jitter)) \/
     (type site = Bridge /\ energy site = Num (spec_base s ads - 0.2 + jitter)) \/
     (type site = Hollow /\ energy site = Num (spec_base s ads - 0.8 + jitter))).
Proof.
  intros Hrandom Hown Hrun Hin.
  destruct (analyze_site_origin random s ads n res n' site Hrun Hin)
    as (c & Hc & k & ->).
  exists ((random k - 0.5) * 0.2). split; [exists k; reflexivity|].
  split; [specialize (Hrandom k); lra|].
  rewrite (base_binding_spec _ _ Hown).
  destruct Hc; simpl; [left|right; left|right; right];
    (split; [reflexivity|];
     unfold site_factor, site_energy; simpl; f_equal; lra).
Qed.

Lemma site_energy_formula_witness :
  exists res jitter,
    analyze demo_random demo_structure "CO" 0%nat = Return res 7%nat /\
    -0.1 <= jitter < 0.1 /\
    energy (set_energy (bridge_site demo_a0 demo_a1)
              (site_energy (base_binding demo_structure "CO") (-0.2)
                           ((0.9 - 0.5) * 0.2)))
    = Num (spec_base demo_structure "CO" - 0.2 + jitter).
Proof.
  destruct demo_run as (res & Hrun & Hsites).
  destruct (site_energy_formula demo_random demo_structure "CO" 0%nat res 7%nat
              (set_energy (bridge_site demo_a0 demo_a1)
                 (site_energy (base_binding demo_structure "CO") (-0.2)
                              ((0.9 - 0.5) * 0.2)))
              demo_random_range eq_refl Hrun)
    as (jitter & _ & Hrange & Hcases).
  { rewrite Hsites. right. left. reflexivity. }
  exists res, jitter. split; [exact Hrun|]. split; [exact Hrange|].
  destruct Hcases as [[Ht _]|[[_ He]|[Ht _]]];
    [discriminate Ht|exact He|discriminate Ht].
Defined.

(** * Further properties of the builder *)

(** ** The slab, cell by cell *)

Lemma for_range_S {S : Type} n (body : nat -> S -> S) s :
  for_range (Datatypes.S n) body s = body n (for_range n body s).
Proof. unfold for_range. rewrite seq_S, fold_left_app. reflexivity. Qed.

(** A loop that appends [g i id] and advances the id by [c] on each turn. *)
Lemma for_range_push {A : Type} (g : nat -> nat -> list A) (c n : nat)
      (body : nat -> list A * nat -> list A * nat) :
  (forall i l id, body i (l, id) = (l ++ g i id, (id + c)%nat)) ->
  forall l id,
    for_range n body (l, id)
    = (l ++ flat_map (fun i => g i (id + i * c)%nat) (seq 0 n), (id + n * c)%nat).
Proof.
  intros Hbody l id. induction n as [|n IH].
  - unfold for_range. simpl. rewrite app_nil_r, Nat.add_0_r. reflexivity.
  - rewrite for_range_S, IH, Hbody, seq_S, flat_map_app. simpl.
    rewrite app_nil_r, <- app_assoc. f_equal. lia.
Qed.

Lemma fcc111_cells e a : fst (fcc111 e a) = slab_cells 4 3 3 2 (fcc111_cell e a).
Proof.
  unfold fcc111. cbv zeta.
  match goal with
  | |- context [for_range 4 ?body ?s0] =>
      assert (H : for_range 4 body s0
                  = ([] ++ flat_map (fun k =>
                             flat_map (fun j =>
                               flat_map (fun i =>
                                 fcc111_cell e a k j i (0 + k * 18 + j * 6 + i * 2)%nat)
                                 (seq 0 3)) (seq 0 3)) (seq 0 4),
                     (0 + 4 * 18)%nat))
  end.
  { apply (for_range_push
             (fun k id => flat_map (fun j =>
                            flat_map (fun i => fcc111_cell e a k j i (id + j * 6 + i * 2)%nat)
                                     (seq 0 3)) (seq 0 3)) 18).
    intros k l id.
    apply (for_range_push
             (fun j id => flat_map (fun i => fcc111_cell e a k j i (id + i * 2)%nat)
                                   (seq 0 3)) 6).
    intros j l1 id1.
    apply (for_range_push (fun i id => fcc111_cell e a k j i id) 2).
    intros i l2 id2. unfold fcc111_cell, Math_sqrt. cbv zeta.
    rewrite <- app_assoc. simpl. f_equal. lia. }
  rewrite H. reflexivity.
Qed.

Lemma fcc100_cells e a : fst (fcc100 e a) = slab_cells 4 4 4 1 (fcc100_cell e a).
Proof.
  unfold fcc100. cbv zeta.
  match goal with
  | |- context [for_range 4 ?body ?s0] =>
      assert (H : for_range 4 body s0
                  = ([] ++ flat_map (fun k =>
                             flat_map (fun j =>
                               flat_map (fun i =>
                                 fcc100_cell e a k j i (0 + k * 16 + j * 4 + i * 1)%nat)
                                 (seq 0 4)) (seq 0 4)) (seq 0 4),
                     (0 + 4 * 16)%nat))
  end.
  { apply (for_range_push
             (fun k id => flat_map (fun j =>
                            flat_map (fun i => fcc100_cell e a k j i (id + j * 4 + i * 1)%nat)
                                     (seq 0 4)) (seq 0 4)) 16).
    intros k l id.
    apply (for_range_push
             (fun j id => flat_map (fun i => fcc100_cell e a k j i (id + i * 1)%nat)
                                   (seq 0 4)) 4).
    intros j l1 id1.
    apply (for_range_push (fun i id => fcc100_cell e a k j i id) 1).
    intros i l2 id2. unfold fcc100_cell, Math_sqrt. cbv zeta.
    f_equal. lia. }
  rewrite H. reflexivity.
Qed.

(** Membership in a slab: an atom of the slab is an atom of one of its cells. *)
Lemma in_slab_cells nz ny nx c cell atom :
  In atom (slab_cells nz ny nx c cell) ->
  exists k j i id, (k < nz)%nat /\ (j < ny)%nat /\ (i < nx)%nat /\
                   In atom (cell k j i id).
Proof.
  unfold slab_cells. intros H.
  apply in_flat_map in H as (k & Hk & H).
  apply in_flat_map in H as (j & Hj & H).
  apply in_flat_map in H as (i & Hi & H).
  apply in_seq in Hk, Hj, Hi.
  exists k, j, i. eexists. repeat split; [lia|lia|lia|exact H].
Qed.

(** ** The remainder operator *)

Lemma rem_range x y : 0 <= x -> 0 < y -> 0 <= rem x y < y.
Proof.
  intros Hx Hy. unfold rem, trunc.
  assert (Hq : 0 <= x / y).
  { apply Rmult_le_pos; [exact Hx|]. apply Rlt_le, Rinv_0_lt_compat. exact Hy. }
  destruct (decide (0 <= x / y)) as [_|Hn]; [|contradiction].
  destruct (base_Int_part (x / y)) as [Hlo Hhi].
  assert (Hxy : x = x / y * y) by (field; lra).
  set (q := x / y) in *. set (t := IZR (Int_part q)) in *.
  split; nra.
Qed.

(** ** Every atom of a built slab *)

Lemma cell111_createAtom e a k j i id atom :
  In atom (fcc111_cell e a k j i id) ->
  exists x y z id', atom = createAtom e x y z id'.
Proof.
  unfold fcc111_cell. cbv zeta. intros [<-|[<-|[]]]; do 4 eexists; reflexivity.
Qed.

Lemma cell100_createAtom e a k j i id atom :
  In atom (fcc100_cell e a k j i id) ->
  exists x y z id', atom = createAtom e x y z id'.
Proof.
  unfold fcc100_cell. cbv zeta. intros [<-|[]]; do 4 eexists; reflexivity.
Qed.

Lemma built_atom_createAtom q atom :
  In atom (atoms (generateSlabStructure q)) ->
  exists x y z id', atom = createAtom (parse_element q) x y z id'.
Proof.
  rewrite generateSlabStructure_atoms. cbv zeta.
  destruct (decide (parse_face q = "111"%string)); intros Hin.
  - rewrite fcc111_cells in Hin.
    apply in_slab_cells in Hin as (k & j & i & id & _ & _ & _ & Hin).
    eapply cell111_createAtom. exact Hin.
  - rewrite fcc100_cells in Hin.
    apply in_slab_cells in Hin as (k & j & i & id & _ & _ & _ & Hin).
    eapply cell100_createAtom. exact Hin.
Qed.

Lemma built_atom_layered q :
  exists per_layer spacing,
    layered per_layer spacing (4 * per_layer)
            (atoms (generateSlabStructure q), (4 * per_layer)%nat).
Proof.
  rewrite generateSlabStructure_atoms. cbv zeta.
  destruct (decide (parse_face q = "111"%string)).
  - exists 18%nat. eexists. apply fcc111_layered.
  - exists 16%nat. eexists. apply fcc100_layered.
Qed.

(** X7: The atoms of a built structure are numbered in order from 0, so their
    ids are distinct, and they all carry the element of the formula with
    one colour and one radius, both defined. *)
Theorem built_atoms_numbered_and_uniform q n atom :
  let s := generateSlabStructure q in
  atoms s !! n = Some atom ->
  id atom = n /\
  element atom = formula s /\
  color atom = Some (or_string (CPK_COLORS !! formula s) "#ff00ff") /\
  radius atom = Some (or_number (ATOMIC_RADII !! formula s) 1.0) /\
  (forall n' atom', atoms s !! n' = Some atom' -> id atom' = id atom -> n' = n).
Proof.
  cbv zeta. intros Hn.
  destruct (built_atom_layered q) as (p & sp & _ & _ & Hat). simpl in Hat.
  destruct (Hat n atom Hn) as [Hid _].
  assert (Hin : In atom (atoms (generateSlabStructure q))).
  { apply list_elem_of_In. eapply list_elem_of_lookup_2. exact Hn. }
  apply built_atom_createAtom in Hin as (x & y & z & id' & ->).
  rewrite generateSlabStructure_formula.
  split; [exact Hid|]. split; [reflexivity|]. split; [reflexivity|].
  split; [reflexivity|].
  intros n' atom' Hn' Heq. destruct (Hat n' atom' Hn') as [Hid' _]. congruence.
Qed.

Lemma built_atoms_numbered_and_uniform_witness :
  exists atom,
    atoms (generateSlabStructure "Au(111)") !! 5%nat = Some atom /\
    id atom = 5%nat /\ element atom = "Au"%string.
Proof.
  destruct (lookup_lt_is_Some_2 (atoms (generateSlabStructure "Au(111)")) 5)
    as [atom Hatom].
  { destruct (slab_atoms "Au(111)") as [H111 _]. cbv zeta in H111.
    destruct (H111 eq_refl) as [-> _]. lia. }
  exists atom. split; [exact Hatom|].
  destruct (built_atoms_numbered_and_uniform "Au(111)" 5%nat atom Hatom)
    as (Hid & Hel & _).
  split; [exact Hid|]. rewrite Hel. reflexivity.
Defined.

Lemma INR_below (i n : nat) : (i < n)%nat -> 0 <= INR i <= INR n - 1.
Proof.
  intros Hi. split; [apply pos_INR|].
  assert (H : INR (S i) <= INR n) by (apply le_INR; lia).
  rewrite S_INR in H. lra.
Qed.

(** X8: Every atom of a built structure lies inside the cell spanned by the
    three lattice vectors, which are orthogonal, and keeps at least the
    10 A of vacuum below the top of the cell. *)
Theorem built_atoms_inside_cell q atom :
  let s := generateSlabStructure q in
  In atom (atoms s) ->
  exists X Y Z,
    latticeVectors s = Some [ [X; 0; 0]; [0; Y; 0]; [0; 0; Z] ] /\
    0 <= x atom < X /\ 0 <= y atom < Y /\ 0 <= z atom <= Z - 10.
Proof.
  cbv zeta.
  rewrite generateSlabStructure_atoms, generateSlabStructure_latticeVectors.
  cbv zeta.
  pose proof (latticeConstant_pos q) as Ha.
  set (a := latticeConstant (props_or_Cu (parse_element q))) in *.
  assert (H2 : 0 < sqrt 2) by (apply sqrt_pos_lt; lra).
  assert (H3 : 0 < sqrt 3) by (apply sqrt_pos_lt; lra).
  assert (H6 : 0 < sqrt 6) by (apply sqrt_pos_lt; lra).
  destruct (decide (parse_face q = "111"%string)); intros Hin.
  - rewrite fcc111_latticeVectors. rewrite fcc111_cells in Hin.
    apply in_slab_cells in Hin as (k & j & i & id & Hk & Hj & Hi & Hin).
    assert (Hxd : 0 < a / sqrt 2) by (apply Rdiv_lt_0_compat; lra).
    assert (Hyd : 0 < a * sqrt 6 / 2).
    { apply Rdiv_lt_0_compat; [apply Rmult_lt_0_compat; lra|lra]. }
    assert (Hzd : 0 < a / sqrt 3) by (apply Rdiv_lt_0_compat; lra).
    pose proof (INR_below i 3 Hi) as Hi'. pose proof (INR_below j 3 Hj) as Hj'.
    pose proof (INR_below k 4 Hk) as Hk'.
    unfold fcc111_cell in Hin. cbv zeta in Hin.
    replace (INR 3) with 3 in * by (simpl; lra).
    replace (INR 4) with 4 in * by (simpl; lra).
    set (xd := a / sqrt 2) in *. set (yd := a * sqrt 6 / 2) in *.
    set (zd := a / sqrt 3) in *.
    do 3 eexists. split; [reflexivity|].
    assert (Hsx : 0 <= (if (k mod 3 =? 1)%nat then 0.5 * xd
                        else if (k mod 3 =? 2)%nat then 0 else 0)).
    { destruct (k mod 3 =? 1)%nat; [lra|destruct (k mod 3 =? 2)%nat; lra]. }
    assert (Hsy : 0 <= (if (k mod 3 =? 1)%nat then yd / 6
                        else if (k mod 3 =? 2)%nat then 2 * (yd / 6) else 0)).
    { destruct (k mod 3 =? 1)%nat; [lra|destruct (k mod 3 =? 2)%nat; lra]. }
    destruct Hin as [<-|[<-|[]]]; cbn [x y z createAtom];
      (split; [apply rem_range; nra|]);
      (split; [apply rem_range; nra|]); nra.
  - rewrite fcc100_latticeVectors. rewrite fcc100_cells in Hin.
    apply in_slab_cells in Hin as (k & j & i & id & Hk & Hj & Hi & Hin).
    assert (Hd : 0 < a / sqrt 2) by (apply Rdiv_lt_0_compat; lra).
    assert (Hda : a / sqrt 2 * sqrt 2 = a) by (field; lra).
    pose proof (INR_below i 4 Hi) as Hi'. pose proof (INR_below j 4 Hj) as Hj'.
    pose proof (INR_below k 4 Hk) as Hk'.
    unfold fcc100_cell in Hin. cbv zeta in Hin.
    replace (INR 4) with 4 in * by (simpl; lra).
    rewrite Hda. set (d := a / sqrt 2) in *.
    do 3 eexists. split; [reflexivity|].
    destruct Hin as [<-|[]]; cbn [x y z createAtom].
    destruct (k mod 2 =? 1)%nat; repeat split; nra.
Qed.

Lemma built_atoms_inside_cell_witness :
  exists atom X Y Z,
    atoms (generateSlabStructure "Au(111)") !! 71%nat = Some atom /\
    latticeVectors (generateSlabStructure "Au(111)")
    = Some [ [X; 0; 0]; [0; Y; 0]; [0; 0; Z] ] /\
    0 <= x atom < X.
Proof.
  destruct (lookup_lt_is_Some_2 (atoms (generateSlabStructure "Au(111)")) 71)
    as [atom Hatom].
  { destruct (slab_atoms "Au(111)") as [H111 _]. cbv zeta in H111.
    destruct (H111 eq_refl) as [-> _]. lia. }
  destruct (built_atoms_inside_cell "Au(111)" atom)
    as (X & Y & Z & Hv & Hx & _).
  { apply list_elem_of_In. eapply list_elem_of_lookup_2. exact Hatom. }
  exists atom, X, Y, Z. split; [exact Hatom|]. split; [exact Hv|exact Hx].
Defined.

(** ** The surface of a built slab *)

Lemma filter_drop {A : Type} (f : A -> bool) : forall (l : list A) (m : nat),
  (forall i a, l !! i = Some a -> f a = bool_decide (m <= i)%nat) ->
  List.filter f l = drop m l.
Proof.
  induction l as [|a l IH]; intros m Hf; [destruct m; reflexivity|].
  simpl. rewrite (Hf 0%nat a eq_refl). destruct m as [|m].
  - rewrite bool_decide_eq_true_2 by lia. simpl. f_equal.
    rewrite (IH 0%nat); [reflexivity|].
    intros i b Hb. rewrite (Hf (S i) b Hb).
    rewrite !bool_decide_eq_true_2 by lia. reflexivity.
  - rewrite bool_decide_eq_false_2 by lia. simpl.
    apply IH. intros i b Hb. rewrite (Hf (S i) b Hb).
    apply bool_decide_ext. lia.
Qed.

Lemma latticeConstant_lower q :
  3.524 <= latticeConstant (props_or_Cu (parse_element q)).
Proof.
  pose proof (props_or_Cu_in_table _ (parse_element_own q)) as H.
  repeat (apply elem_of_cons in H as [->|H]; [simpl; lra|]).
  inversion H.
Qed.

Lemma sqrt_3_lt_2 : sqrt 3 < 2.
Proof.
  replace 2 with (sqrt (2 * 2)) by (apply sqrt_square; lra).
  apply sqrt_lt_1; lra.
Qed.

(** The surface of a slab of four layers more than 1.5 A apart is its top
    layer. *)
Lemma surface_of_layered s p sp :
  (0 < p)%nat -> 1.5 < sp ->
  layered p sp (4 * p) (atoms s, (4 * p)%nat) ->
  surface_atoms s = drop (3 * p) (atoms s).
Proof.
  intros Hp Hsp (_ & Hlen & Hat). simpl in Hlen, Hat.
  assert (Hz : forall i a, atoms s !! i = Some a ->
                           z a = INR (i / p) * sp /\ (i / p < 4)%nat).
  { intros i a Hi. split; [apply Hat; exact Hi|].
    apply lookup_lt_Some in Hi. apply Nat.Div0.div_lt_upper_bound. lia. }
  destruct (Math_max_spec (map z (atoms s))) as (m & Hm & Hin & Hub).
  { destruct (atoms s); [simpl in Hlen; lia|discriminate]. }
  assert (Hmax : m = 3 * sp).
  { apply Rle_antisym.
    - apply in_map_iff in Hin as (a & <- & Ha).
      apply list_elem_of_In, list_elem_of_lookup_1 in Ha as [i Hi].
      destruct (Hz i a Hi) as [-> Hlt].
      assert (INR (i / p) <= INR 3) by (apply le_INR; lia).
      simpl in H. nra.
    - destruct (lookup_lt_is_Some_2 (atoms s) (4 * p - 1)) as [a Ha]; [lia|].
      destruct (Hz _ a Ha) as [Hza _].
      replace ((4 * p - 1) / p)%nat with 3%nat in Hza.
      2:{ apply (Nat.div_unique _ _ 3 (p - 1)); lia. }
      replace (INR 3) with 3 in Hza by (simpl; lra). rewrite <- Hza.
      apply Hub. apply in_map.
      apply list_elem_of_In. eapply list_elem_of_lookup_2. exact Ha. }
  unfold surface_atoms, surface_maxY. rewrite Hm. simpl xminus.
  apply filter_drop. intros i a Hi.
  destruct (Hz i a Hi) as [Hza Hlt]. unfold gt_x. rewrite Hza, Hmax.
  destruct (decide (3 * p <= i)%nat) as [Hge|Hlo].
  - rewrite (bool_decide_eq_true_2 _ Hge).
    assert (i / p = 3)%nat as ->.
    { assert (3 <= i / p)%nat by (apply Nat.div_le_lower_bound; lia). lia. }
    apply bool_decide_eq_true_2. simpl. lra.
  - rewrite (bool_decide_eq_false_2 _ Hlo).
    assert (INR (i / p) <= INR 2).
    { apply le_INR.
      assert (i / p < 3)%nat by (apply Nat.Div0.div_lt_upper_bound; lia). lia. }
    apply bool_decide_eq_false_2. simpl in H. nra.
Qed.

(** X6: The surface atoms the engine finds on a built slab are exactly the atoms
    of its top layer: the last 18 atoms on the 111 path, the last 16 on the
    other path. *)
Theorem built_surface_is_top_layer q :
  let s := generateSlabStructure q in
  let per_layer :=
    if bool_decide (parse_face q = "111"%string) then 18%nat else 16%nat in
  surface_atoms s = drop (3 * per_layer) (atoms s) /\
  length (surface_atoms s) = per_layer.
Proof.
  cbv zeta.
  pose proof (latticeConstant_lower q) as Ha.
  pose proof sqrt_3_lt_2 as H3.
  assert (H3' : 0 < sqrt 3) by (apply sqrt_pos_lt; lra).
  destruct (decide (parse_face q = "111"%string)) as [Hf|Hf].
  - rewrite (bool_decide_eq_true_2 _ Hf).
    assert (Hl : layered 18 (latticeConstant (props_or_Cu (parse_element q)) / sqrt 3)
                         (4 * 18) (atoms (generateSlabStructure q), (4 * 18)%nat)).
    { rewrite generateSlabStructure_atoms. cbv zeta.
      destruct (decide (parse_face q = "111"%string)); [|contradiction].
      apply fcc111_layered. }
    assert (Hsp : 1.5 < latticeConstant (props_or_Cu (parse_element q)) / sqrt 3).
    { assert (Hsplit : latticeConstant (props_or_Cu (parse_element q))
                       = latticeConstant (props_or_Cu (parse_element q)) / sqrt 3
                         * sqrt 3) by (field; lra).
      set (t := latticeConstant (props_or_Cu (parse_element q)) / sqrt 3) in *.
      nra. }
    rewrite (surface_of_layered _ 18 _ ltac:(lia) Hsp Hl).
    split; [reflexivity|]. rewrite length_drop.
    destruct Hl as (_ & Hlen & _). cbn [fst] in Hlen. rewrite Hlen. reflexivity.
  - rewrite (bool_decide_eq_false_2 _ Hf).
    assert (Hl : layered 16 (latticeConstant (props_or_Cu (parse_element q)) / 2)
                         (4 * 16) (atoms (generateSlabStructure q), (4 * 16)%nat)).
    { rewrite generateSlabStructure_atoms. cbv zeta.
      destruct (decide (parse_face q = "111"%string)); [contradiction|].
      apply fcc100_layered. }
    assert (Hsp : 1.5 < latticeConstant (props_or_Cu (parse_element q)) / 2) by lra.
    rewrite (surface_of_layered _ 16 _ ltac:(lia) Hsp Hl).
    split; [reflexivity|]. rewrite length_drop.
    destruct Hl as (_ & Hlen & _). cbn [fst] in Hlen. rewrite Hlen. reflexivity.
Qed.

(** ** The Miller index of a label *)

Lemma parse_face_three_digits q : three_digits (parse_face q).
Proof.
  rewrite parse_face_spec.
  destruct (first_group q) as [g|] eqn:Hg.
  - apply first_group_Some in Hg as (_ & _ & _ & Hg). exact Hg.
  - exists "1"%char, "1"%char, "1"%char. repeat split; reflexivity.
Qed.

(** X9: The label of a built structure is always well formed: the formula is an
    element symbol and the Miller index three digits between parentheses,
    whatever the query was. *)
Theorem built_label_well_formed q :
  let s := generateSlabStructure q in
  element_symbol (formula s) /\
  exists f, millerIndex s = Some ("(" +:+ f +:+ ")")%string /\ three_digits f.
Proof.
  cbv zeta.
  rewrite generateSlabStructure_formula, generateSlabStructure_millerIndex.
  split; [apply parse_element_symbol|].
  exists (parse_face q). split; [reflexivity|apply parse_face_three_digits].
Qed.

(** ** Reading a label back *)

Lemma group_at_head_other c s : c <> "("%char -> group_at_head (String c s) = None.
Proof.
  intros Hc. destruct s as [|d1 [|d2 [|d3 [|p' rest]]]]; try reflexivity.
  cbn -[Ascii.eqb in_class].
  destruct (Ascii.eqb_spec c "("); [contradiction|reflexivity].
Qed.

Lemma upper_not_paren c : in_class "A" "Z" c = true -> c <> "("%char.
Proof. intros H ->. discriminate H. Qed.

Lemma lower_not_paren c : in_class "a" "z" c = true -> c <> "("%char.
Proof. intros H ->. discriminate H. Qed.

Lemma first_group_head q g :
  group_at_head q = Some g -> first_group q = Some g.
Proof.
  intros H. destruct q as [|c q]; [discriminate H|].
  cbn [first_group]. rewrite H. reflexivity.
Qed.

Lemma parse_label e f rest :
  element_symbol e -> three_digits f ->
  parse_element (e +:+ "(" +:+ f +:+ ")" +:+ rest) = e /\
  parse_face (e +:+ "(" +:+ f +:+ ")" +:+ rest) = f.
Proof.
  intros (c1 & H1 & He) Hf.
  rewrite parse_element_spec, parse_face_spec.
  pose proof (group_at_head_complete f rest Hf) as Hg.
  destruct He as [->|(c2 & H2 & ->)].
  - rewrite append_cons, append_nil_l. split.
    + cbn -[in_class String.append]. rewrite H1. reflexivity.
    + cbn [first_group].
      rewrite (group_at_head_other _ _ (upper_not_paren c1 H1)).
      change (default "111"%string
                (first_group ("(" +:+ f +:+ ")" +:+ rest)%string) = f).
      rewrite (first_group_head _ _ Hg). reflexivity.
  - rewrite !append_cons, append_nil_l. split.
    + cbn -[in_class String.append]. rewrite H1, H2. reflexivity.
    + cbn [first_group].
      rewrite (group_at_head_other _ _ (upper_not_paren c1 H1)).
      rewrite (group_at_head_other _ _ (lower_not_paren c2 H2)).
      change (default "111"%string
                (first_group ("(" +:+ f +:+ ")" +:+ rest)%string) = f).
      rewrite (first_group_head _ _ Hg). reflexivity.
Qed.

Lemma generateSlabStructure_parse q1 q2 :
  parse_element q1 = parse_element q2 -> parse_face q1 = parse_face q2 ->
  generateSlabStructure q1 = generateSlabStructure q2.
Proof. unfold generateSlabStructure. intros -> ->. reflexivity. Qed.

Lemma append_assoc (a b c : string) :
  ((a +:+ b) +:+ c)%string = (a +:+ b +:+ c)%string.
Proof.
  induction a as [|x a IH]; [reflexivity|].
  rewrite !append_cons, IH. reflexivity.
Qed.

(** X10: Round trip: the label of a built structure, its formula followed by its
    Miller index, is a query that builds the same structure again, whatever
    follows the label. *)
Theorem rebuild_from_label q m rest :
  let s := generateSlabStructure q in
  millerIndex s = Some m ->
  generateSlabStructure (formula s +:+ m +:+ rest) = s.
Proof.
  cbv zeta.
  rewrite generateSlabStructure_formula, generateSlabStructure_millerIndex.
  intros H. injection H as <-.
  destruct (parse_label (parse_element q) (parse_face q) rest
              (parse_element_symbol q) (parse_face_three_digits q)) as [He Hf].
  rewrite !append_assoc.
  apply generateSlabStructure_parse; assumption.
Qed.

Lemma rebuild_from_label_witness :
  generateSlabStructure ("Pt" +:+ "(110)" +:+ " slab")
  = generateSlabStructure "Pt(110)".
Proof.
  apply (rebuild_from_label "Pt(110)" "(110)" " slab"). reflexivity.
Defined.

(** ** An element without physical data *)

Lemma map_flat_map {A B C : Type} (f : B -> C) (g : A -> list B) l :
  map f (flat_map g l) = flat_map (fun a => map f (g a)) l.
Proof.
  induction l as [|a l IH]; [reflexivity|].
  simpl. rewrite map_app, IH. reflexivity.
Qed.

Lemma slab_cells_positions nz ny nx c cell1 cell2 :
  (forall k j i id, map position (cell1 k j i id) = map position (cell2 k j i id)) ->
  map position (slab_cells nz ny nx c cell1)
  = map position (slab_cells nz ny nx c cell2).
Proof.
  intros Hcell. unfold slab_cells. rewrite !map_flat_map.
  apply flat_map_ext. intros k. rewrite !map_flat_map.
  apply flat_map_ext. intros j. rewrite !map_flat_map.
  apply flat_map_ext. intros i. apply Hcell.
Qed.

Lemma props_or_Cu_missing e :
  inherited e = false ->
  ELEMENT_PROPERTIES !! e = None -> props_or_Cu e = props_or_Cu "Cu".
Proof.
  intros Hown Hmiss. unfold props_or_Cu at 1. unfold lookup_or_Cu, Object_get.
  rewrite Hmiss, Hown. reflexivity.
Qed.

(** X11: A symbol the physical table does not know gets the slab of copper: the
    same positions and lattice vectors as the Cu query of the same Miller
    index, and the Materials Project id of Cu, under its own formula. *)
Theorem unknown_element_gets_Cu_lattice q :
  let s := generateSlabStructure q in
  let cu := generateSlabStructure ("Cu" +:+ "(" +:+ parse_face q +:+ ")") in
  ELEMENT_PROPERTIES !! parse_element q = None ->
  formula s = parse_element q /\
  structure_mpId s = Some "mp-30"%string /\
  map position (atoms s) = map position (atoms cu) /\
  latticeVectors s = latticeVectors cu.
Proof.
  cbv zeta. intros Hmiss.
  assert (HCu : element_symbol "Cu").
  { exists "C"%char. split; [reflexivity|].
    right. exists "u"%char. split; reflexivity. }
  destruct (parse_label "Cu" (parse_face q) "" HCu (parse_face_three_digits q))
    as [He Hf].
  replace (")" +:+ "")%string with ")"%string in He, Hf by reflexivity.
  rewrite !generateSlabStructure_atoms, !generateSlabStructure_latticeVectors,
    generateSlabStructure_formula.
  cbv zeta. rewrite He, Hf, (props_or_Cu_missing _ (parse_element_own q) Hmiss).
  split; [reflexivity|]. split.
  { unfold generateSlabStructure. cbv zeta.
    rewrite (props_or_Cu_missing _ (parse_element_own q) Hmiss), props_Cu.
    destruct (if decide (parse_face q = "111"%string) then _ else _); reflexivity. }
  destruct (decide (parse_face q = "111"%string)).
  - split.
    + rewrite !fcc111_cells. apply slab_cells_positions. reflexivity.
    + rewrite !fcc111_latticeVectors. reflexivity.
  - split.
    + rewrite !fcc100_cells. apply slab_cells_positions. reflexivity.
    + rewrite !fcc100_latticeVectors. reflexivity.
Qed.

Lemma unknown_element_gets_Cu_lattice_witness :
  map position (atoms (generateSlabStructure "Fe(100)"))
  = map position (atoms (generateSlabStructure "Cu(100)")).
Proof.
  apply (unknown_element_gets_Cu_lattice "Fe(100)"). reflexivity.
Defined.

(** * Properties of the dashboard *)

Lemma in_order_chart_entries l :
  Sorted (fun a b => ~ number_lt (Num 0) (by_energy a b)) l ->
  Sorted (fun a b => ~ number_lt (Num 0)
                        (number_minus (chart_energy a) (chart_energy b)))
         (map chart_entry l).
Proof.
  induction 1 as [|a l _ IH Hhd]; cbn [map]; [constructor|].
  constructor; [exact IH|].
  destruct Hhd as [|b l Hab]; cbn [map]; constructor.
  exact Hab.
Qed.

(** X12: The chart shows the sites of an engine result in the order of the
    table: sorting the rows again does not move any of them. *)
Theorem chart_keeps_result_order random s ads n res n' :
  analyze random s ads n = Return res n' ->
  chartData (sites res) = map chart_entry (sites res).
Proof.
  intros Hrun. unfold chartData.
  apply Array_sort_sorted, in_order_chart_entries.
  apply analyze_Return in Hrun as (cands & scoreds & _ & _ & ->).
  apply Sorted_firstn, Array_sort_in_order. exact by_energy_one_way.
Qed.

Lemma chart_keeps_result_order_witness :
  exists res,
    analyze demo_random demo_structure "CO" 0%nat = Return res 7%nat /\
    chartData (sites res) = map chart_entry (sites res).
Proof.
  destruct demo_run as (res & Hrun & _).
  exists res. split; [exact Hrun|].
  exact (chart_keeps_result_order demo_random demo_structure "CO" 0%nat res
           7%nat Hrun).
Defined.

(** X13: The label of a chart row of an engine result depends on the type of the
    site only, so all the rows of one type carry the same label. *)
Theorem chart_label_by_type random s ads n res n' site :
  analyze random s ads n = Return res n' ->
  In site (sites res) ->
  (type site = Top -> chart_name (chart_entry site) = "Top-top-"%string) /\
  (type site = Bridge -> chart_name (chart_entry site) = "Bridge-brg-"%string) /\
  (type site = Hollow -> chart_name (chart_entry site) = "Hollow-holl"%string).
Proof.
  intros Hrun Hin.
  destruct (analyze_site_origin random s ads n res n' site Hrun Hin)
    as (c & Hc & k & ->).
  unfold chart_entry, String_slice0. cbn [chart_name type site_id set_energy].
  destruct Hc as [atom _|i j a1 a2 _ _ _ _|a0 _];
    cbn [type site_id top_site bridge_site hollow_site];
    repeat split; intros Ht; try discriminate Ht; try reflexivity.
  - rewrite (substring_prefix "top-" (pretty (id atom))). reflexivity.
  - rewrite (substring_prefix "brg-" (pretty (id a1) +:+ "-" +:+ pretty (id a2))).
    reflexivity.
Qed.

Lemma chart_label_by_type_witness :
  exists res,
    analyze demo_random demo_structure "CO" 0%nat = Return res 7%nat /\
    chart_name (chart_entry
                  (set_energy (top_site demo_a0)
                     (site_energy (base_binding demo_structure "CO") 0.5
                                    ((0.9 - 0.5) * 0.2))))
    = "Top-top-"%string.
Proof.
  destruct demo_run as (res & Hrun & Hsites).
  exists res. split; [exact Hrun|].
  refine (proj1 (chart_label_by_type demo_random demo_structure "CO" 0%nat res
                   7%nat
                   (set_energy (top_site demo_a0)
                      (site_energy (base_binding demo_structure "CO") 0.5
                                    ((0.9 - 0.5) * 0.2)))
                   Hrun _) eq_refl).
  rewrite Hsites. right. right. left. reflexivity.
Defined.

(** ** The colour scale *)

Lemma electronegativity_range e :
  inherited e = false ->
  1.61 <= electronegativity (props_or_Cu e) <= 2.54.
Proof.
  intros Hown. pose proof (props_or_Cu_in_table e Hown) as H.
  repeat (apply elem_of_cons in H as [->|H]; [simpl; lra|]).
  inversion H.
Qed.

Lemma spec_base_range s ads :
  inherited (formula s) = false -> -0.915 <= spec_base s ads <= 0.
Proof.
  intros Hown. unfold spec_base, spec_adsorbate_electronegativity. cbv zeta.
  pose proof (electronegativity_range (formula s) Hown) as He.
  set (en := electronegativity (props_or_Cu (formula s))) in *.
  destruct (includes "O" _); [|destruct (includes "N" _)];
    (unfold Rabs; destruct (Rcase_abs _); lra).
Qed.

(** X14: No site of an engine result is ever shown as strong: with draws in
    [0, 1), neither the bar, nor the marker, nor the table cell takes the
    emerald colour, and a Top site is always shown in red; unless the formula
    is the name of a property objects inherit, the energy lies strictly
    between -2 and 0.6 eV. *)
Theorem engine_sites_are_never_strong random s ads n res n' site :
  (forall k, 0 <= random k < 1) ->
  analyze random s ads n = Return res n' ->
  In site (sites res) ->
  (inherited (formula s) = false ->
   exists e, energy site = Num e /\ -2 < e < 0.6) /\
  getBarColor (energy site) <> "#10b981"%string /\
  getColor (energy site) <> "#10b981"%string /\
  energy_cell_class (energy site) <> "text-emerald-400"%string /\
  (type site = Top -> getColor (energy site) = "#ef4444"%string).
Proof.
  intros Hrandom Hrun Hin.
  destruct (analyze_site_origin random s ads n res n' site Hrun Hin)
    as (c & Hc & k & ->).
  pose proof (Hrandom k) as Hk.
  cbn [energy type set_energy].
  destruct (inherited (formula s)) eqn:Hown.
  { rewrite (base_binding_inherited _ _ Hown).
    split; [discriminate|]. repeat split; try discriminate. }
  rewrite (base_binding_spec _ _ Hown).
  pose proof (spec_base_range s ads Hown) as Hb.
  assert (Hf : (type c = Top /\ site_factor (type c) = 0.5) \/
               (type c <> Top /\ -0.8 <= site_factor (type c) <= -0.2)).
  { destruct Hc; simpl; [left|right|right];
      (split; [first [reflexivity|discriminate]|unfold site_factor; simpl; lra]). }
  cbn [site_energy number_plus].
  set (e := spec_base s ads + site_factor (type c) + (random k - 0.5) * 0.2).
  assert (He : -2 < e < 0.6) by (unfold e; destruct Hf as [[_ ->]|[_ Hf]]; lra).
  split; [intros _; exists e; split; [reflexivity|exact He]|].
  unfold getBarColor, getColor, energy_cell_class.
  destruct (decide (number_lt (Num e) (Num (-2.0)))) as [Hlt|_];
    [simpl in Hlt; lra|].
  destruct (decide (number_lt (Num e) (Num (-2)))) as [Hlt|_];
    [simpl in Hlt; lra|].
  split; [destruct (decide (number_lt (Num e) (Num (-1.0)))); discriminate|].
  split; [destruct (decide (number_lt (Num e) (Num (-1.0)))); discriminate|].
  split; [destruct (decide (number_lt (Num e) (Num (-1)))); discriminate|].
  intros Ht. destruct Hf as [[_ Hf]|[Hf _]]; [|contradiction].
  destruct (decide (number_lt (Num e) (Num (-1.0)))) as [Hlt|_];
    [simpl in Hlt; unfold e in *; lra|reflexivity].
Qed.

Lemma engine_sites_are_never_strong_witness :
  exists res,
    analyze demo_random demo_structure "CO" 0%nat = Return res 7%nat /\
    getColor (energy (set_energy (hollow_site demo_a0 (Fin 0))
                        (site_energy (base_binding demo_structure "CO") (-0.8)
                                    ((0.9 - 0.5) * 0.2))))
    <> "#10b981"%string.
Proof.
  destruct demo_run as (res & Hrun & Hsites).
  exists res. split; [exact Hrun|].
  refine (proj1 (proj2 (proj2 (engine_sites_are_never_strong demo_random
                                 demo_structure "CO" 0%nat res 7%nat
                                 (set_energy (hollow_site demo_a0 (Fin 0))
                                    (site_energy (base_binding demo_structure "CO") (-0.8)
                                    ((0.9 - 0.5) * 0.2)))
                                 demo_random_range Hrun _)))).
  rewrite Hsites. left. reflexivity.
Defined.

(** * Properties of the viewer *)

(** ** The bounding box *)

Lemma Math_min_fold l : forall r,
  exists m, fold_left (fun m z => match m with
                                  | PosInfinity => FinMin z
                                  | FinMin r => FinMin (Rmin r z)
                                  end) l (FinMin r) = FinMin m
            /\ (m = r \/ In m l) /\ m <= r /\ forall v, In v l -> m <= v.
Proof.
  induction l as [|z l IH]; intros r; simpl.
  - exists r. split; [reflexivity|]. split; [left; reflexivity|].
    split; [lra|intros v []].
  - destruct (IH (Rmin r z)) as (m & Hm & Hin & Hr & Hl).
    exists m. split; [exact Hm|].
    pose proof (Rmin_l r z). pose proof (Rmin_r r z).
    split; [|split; [lra|intros v [<-|Hv]; [lra|apply Hl; exact Hv]]].
    destruct Hin as [->|Hin]; [|right; right; exact Hin].
    unfold Rmin. destruct (Rle_dec r z); [left|right; left]; reflexivity.
Qed.

Lemma Math_min_spec l :
  l <> [] ->
  exists m, Math_min l = FinMin m /\ In m l /\ forall v, In v l -> m <= v.
Proof.
  destruct l as [|z l]; [congruence|]. intros _.
  unfold Math_min. simpl.
  destruct (Math_min_fold l z) as (m & Hm & Hin & Hz & Hl).
  exists m. split; [exact Hm|]. split.
  - destruct Hin as [->|Hin]; [left; reflexivity|right; exact Hin].
  - intros v [<-|Hv]; [exact Hz|apply Hl; exact Hv].
Qed.

Lemma centred_by_bounding_box l :
  l <> [] ->
  centred l (- ((finite_min (Math_min l) + finite (Math_max l)) / 2)).
Proof.
  intros Hl.
  destruct (Math_min_spec l Hl) as (lo & -> & Hlo_in & Hlo).
  destruct (Math_max_spec l Hl) as (hi & -> & Hhi_in & Hhi).
  simpl. exists ((hi - lo) / 2). split; [|split].
  - intros v Hv. specialize (Hlo v Hv). specialize (Hhi v Hv). lra.
  - exists lo. split; [exact Hlo_in|lra].
  - exists hi. split; [exact Hhi_in|lra].
Qed.

(** X15: The first scene puts the middle of the bounding box of the atoms at the
    origin, on each axis; a structure without atoms is left at the origin. *)
Theorem scene_centred_on_bounding_box s :
  (atoms s = [] -> SceneContent_center s = (0, 0, 0)) /\
  (atoms s <> [] ->
   exists cx cy cz,
     SceneContent_center s = (cx, cy, cz) /\
     centred (map x (atoms s)) cx /\
     centred (map y (atoms s)) cy /\
     centred (map z (atoms s)) cz).
Proof.
  unfold SceneContent_center. split.
  - intros ->. reflexivity.
  - intros Hne. destruct (atoms s) as [|a l] eqn:Ha; [congruence|].
    cbn [length Nat.eqb]. cbv zeta.
    do 3 eexists. split; [reflexivity|].
    repeat split; apply centred_by_bounding_box; discriminate.
Qed.

Lemma scene_centred_on_bounding_box_witness :
  exists cx cy cz,
    SceneContent_center demo_structure = (cx, cy, cz) /\
    centred (map x (atoms demo_structure)) cx.
Proof.
  destruct (proj2 (scene_centred_on_bounding_box demo_structure))
    as (cx & cy & cz & Hc & Hx & _).
  { discriminate. }
  exists cx, cy, cz. split; [exact Hc|exact Hx].
Defined.

(** ** The centre of mass *)

Lemma fold_left_sums (l : list Atom) : forall sx sy sz,
  fold_left (fun '(sx, sy, sz) a => (sx + x a, sy + y a, sz + z a)) l (sx, sy, sz)
  = (sx + sum_R (map x l), sy + sum_R (map y l), sz + sum_R (map z l)).
Proof.
  induction l as [|a l IH]; intros sx sy sz; simpl.
  - f_equal; [f_equal|]; lra.
  - rewrite IH. f_equal; [f_equal|]; lra.
Qed.

Lemma sum_R_shift (l : list R) c :
  sum_R (map (fun v => v + c) l) = sum_R l + INR (length l) * c.
Proof.
  induction l as [|v l IH]; [simpl; lra|].
  cbn [map sum_R fold_right length]. fold (sum_R (map (fun v => v + c) l)).
  fold (sum_R l). rewrite IH, S_INR. lra.
Qed.

(** X16: The second scene puts the centre of mass of the atoms at the origin:
    the shifted coordinates sum to zero on each axis; a structure without
    atoms is left at the origin. *)
Theorem scene_centred_on_centre_of_mass s :
  (atoms s = [] -> MolecularScene_center s = (0, 0, 0)) /\
  (atoms s <> [] ->
   exists px py pz,
     MolecularScene_position s = (px, py, pz) /\
     sum_R (map (fun v => v + px) (map x (atoms s))) = 0 /\
     sum_R (map (fun v => v + py) (map y (atoms s))) = 0 /\
     sum_R (map (fun v => v + pz) (map z (atoms s))) = 0).
Proof.
  unfold MolecularScene_position, MolecularScene_center. split.
  - intros ->. reflexivity.
  - intros Hne.
    assert (Hn : INR (length (atoms s)) <> 0).
    { apply not_0_INR. destruct (atoms s); [congruence|discriminate]. }
    destruct (length (atoms s) =? 0)%nat eqn:Hlen.
    { apply Nat.eqb_eq in Hlen. rewrite Hlen in Hn. simpl in Hn. lra. }
    cbv zeta. rewrite fold_left_sums.
    unfold Vector3_divideScalar, Vector3_negate.
    do 3 eexists. split; [reflexivity|].
    rewrite !sum_R_shift, !length_map.
    repeat split; field; exact Hn.
Qed.

Lemma scene_centred_on_centre_of_mass_witness :
  exists px py pz,
    MolecularScene_position demo_structure = (px, py, pz) /\
    sum_R (map (fun v => v + px) (map x (atoms demo_structure))) = 0.
Proof.
  destruct (proj2 (scene_centred_on_centre_of_mass demo_structure))
    as (px & py & pz & Hp & Hx & _).
  { discriminate. }
  exists px, py, pz. split; [exact Hp|exact Hx].
Defined.

(** ** The unit cell *)

(** X17: The box of the unit cell is drawn exactly when there are three lattice
    vectors; it then has twelve edges, four along each lattice vector (a
    missing component of a vector counts as 0); and it is drawn for every
    structure the builder makes. *)
Theorem unit_cell_edges vs :
  (length vs <> 3%nat -> UnitCellBox_points (Some vs) = None) /\
  (forall va vb vc,
      vs = [va; vb; vc] ->
      exists pts,
        UnitCellBox_points (Some vs) = Some pts /\
        length (segments pts) = 12%nat /\
        Forall (fun '(p, q) =>
                  q = Vector3_add p (Vector3_spread va) \/
                  q = Vector3_add p (Vector3_spread vb) \/
                  q = Vector3_add p (Vector3_spread vc))
               (segments pts) /\
        let along (d : Vector3) :=
          List.filter (fun '(p, q) => bool_decide (q = Vector3_add p d))
                      (segments pts) in
        forall d, In d [Vector3_spread va; Vector3_spread vb; Vector3_spread vc] ->
                  (4 <= length (along d))%nat) /\
  (forall q, exists pts,
        UnitCellBox_points (latticeVectors (generateSlabStructure q)) = Some pts).
Proof.
  split; [|split].
  - intros Hlen. unfold UnitCellBox_points.
    destruct (length vs =? 3)%nat eqn:H3; [|reflexivity].
    apply Nat.eqb_eq in H3. contradiction.
  - intros va vb vc ->. eexists. split; [reflexivity|].
    split; [reflexivity|].
    cbv zeta. cbn [nth segments].
    destruct (Vector3_spread va) as [[ax ay] az].
    destruct (Vector3_spread vb) as [[bx by_] bz].
    destruct (Vector3_spread vc) as [[cx cy] cz].
    assert (Heq : forall a b c a' b' c' : R,
               a = a' -> b = b' -> c = c' -> (a, b, c) = (a', b', c')).
    { intros; subst; reflexivity. }
    split.
    { repeat (apply List.Forall_cons;
                [ first [ left; unfold Vector3_add; apply Heq; ring
                        | right; left; unfold Vector3_add; apply Heq; ring
                        | right; right; unfold Vector3_add; apply Heq; ring ]
                | ]).
      apply List.Forall_nil. }
    assert (Hadd : forall (p q d : Vector3) (rest : list (Vector3 * Vector3)) k,
               q = Vector3_add p d ->
               (k <= length (List.filter
                               (fun '(p, q) => bool_decide (q = Vector3_add p d))
                               rest))%nat ->
               (S k <= length (List.filter
                                 (fun '(p, q) => bool_decide (q = Vector3_add p d))
                                 ((p, q) :: rest)))%nat).
    { intros p q d rest k Hq Hk. cbn [List.filter].
      rewrite (bool_decide_eq_true_2 _ Hq). simpl. lia. }
    assert (Hskip : forall (p q d : Vector3) (rest : list (Vector3 * Vector3)) k,
               (k <= length (List.filter
                               (fun '(p, q) => bool_decide (q = Vector3_add p d))
                               rest))%nat ->
               (k <= length (List.filter
                               (fun '(p, q) => bool_decide (q = Vector3_add p d))
                               ((p, q) :: rest)))%nat).
    { intros p q d rest k Hk. cbn [List.filter].
      destruct (bool_decide (q = Vector3_add p d)); simpl; lia. }
    intros d [<-|[<-|[<-|[]]]];
      repeat first [ apply Hadd; [unfold Vector3_add; apply Heq; ring|]
                   | apply Hskip ];
      simpl; lia.
  - intros q. rewrite generateSlabStructure_latticeVectors. cbv zeta.
    destruct (decide (parse_face q = "111"%string));
      [rewrite fcc111_latticeVectors|rewrite fcc100_latticeVectors];
      eexists; reflexivity.
Qed.

Lemma unit_cell_edges_witness :
  exists pts,
    UnitCellBox_points (Some [ [1; 0; 0]; [0; 1; 0]; [0; 0; 1] ]) = Some pts /\
    length (segments pts) = 12%nat.
Proof.
  destruct (proj1 (proj2 (unit_cell_edges [ [1; 0; 0]; [0; 1; 0]; [0; 0; 1] ]))
              [1; 0; 0] [0; 1; 0] [0; 0; 1] eq_refl)
    as (pts & Hpts & Hlen & _).
  exists pts. split; [exact Hpts|exact Hlen].
Defined.

(** ** The bonds *)

(** A loop whose body only appends, and changes nothing else. *)
Lemma foldM_append {A S : Type} (g : A -> list S) (body : list S -> A -> M (list S)) l :
  (forall a acc n, In a l -> body acc a n = Return (acc ++ g a) n) ->
  forall acc n, foldM body l acc n = Return (acc ++ flat_map g l) n.
Proof.
  induction l as [|a l IH]; intros Hbody acc n; simpl.
  - rewrite app_nil_r. reflexivity.
  - rewrite (bind_Return_l _ _ _ _ _ (Hbody a acc n (or_introl eq_refl))).
    rewrite IH; [rewrite <- app_assoc; reflexivity|].
    intros b acc' n' Hb. apply Hbody. right. exact Hb.
Qed.

Lemma bonds_Return s n : bonds s n = Return (bond_list (atoms s)) n.
Proof.
  unfold bonds, for_rangeM, bond_list.
  apply (foldM_append
           (fun i => flat_map (bond_pair (atoms s) i)
                              (seq (i + 1) (length (atoms s) - (i + 1))))).
  intros i acc m Hi. apply in_seq in Hi.
  apply (foldM_append (bond_pair (atoms s) i)).
  intros j acc' m' Hj. apply in_seq in Hj.
  destruct (element_at_total (atoms s) i "x" m') as [a1 H1]; [lia|].
  destruct (element_at_total (atoms s) j "x" m') as [a2 H2]; [lia|].
  rewrite (bind_Return_l _ _ _ _ _ H1), (bind_Return_l _ _ _ _ _ H2).
  apply element_at_Return in H1 as [H1 _].
  apply element_at_Return in H2 as [H2 _].
  unfold bond_pair. rewrite H1, H2.
  unfold bond_threshold, atom_vector.
  destruct (_ && _); [reflexivity|].
  unfold ret. rewrite app_nil_r. reflexivity.
Qed.

Lemma in_bond_list atoms b :
  In b (bond_list atoms) <->
  exists i j a1 a2,
    (i < j)%nat /\ atoms !! i = Some a1 /\ atoms !! j = Some a2 /\
    bonded a1 a2 /\
    b = {| bond_start := atom_vector a1; bond_end := atom_vector a2 |}.
Proof.
  unfold bond_list. split.
  - intros Hb. apply in_flat_map in Hb as (i & Hi & Hb).
    apply in_flat_map in Hb as (j & Hj & Hb).
    apply in_seq in Hi, Hj. unfold bond_pair in Hb.
    destruct (atoms !! i) as [a1|] eqn:H1; [|destruct Hb].
    destruct (atoms !! j) as [a2|] eqn:H2; [|destruct Hb].
    destruct (bool_decide _) eqn:Hlt in Hb; [|destruct Hb].
    destruct (bool_decide _) eqn:Hgt in Hb; [|destruct Hb].
    apply bool_decide_eq_true in Hlt, Hgt.
    destruct Hb as [<-|[]].
    exists i, j, a1, a2. split; [lia|]. split; [exact H1|]. split; [exact H2|].
    split; [split; [apply Rgt_lt; exact Hgt|exact Hlt]|reflexivity].
  - intros (i & j & a1 & a2 & Hij & H1 & H2 & [Hgt Hlt] & ->).
    apply lookup_lt_Some in H1 as Hi. apply lookup_lt_Some in H2 as Hj.
    apply in_flat_map. exists i. split; [apply in_seq; lia|].
    apply in_flat_map. exists j. split; [apply in_seq; lia|].
    unfold bond_pair. rewrite H1, H2.
    rewrite (bool_decide_eq_true_2 _ Hlt).
    rewrite (bool_decide_eq_true_2 (_ > 0.1)) by (apply Rlt_gt; exact Hgt).
    left. reflexivity.
Qed.

(** X18: The bonds of a structure are the pairs of atoms, each taken once in the
    order of the list, whose distance lies strictly between 0.1 and the
    threshold of the pair; computing them never fails. *)
Theorem bonds_are_the_close_pairs s n :
  exists l,
    bonds s n = Return l n /\
    forall b,
      In b l <->
      exists i j a1 a2,
        (i < j)%nat /\ atoms s !! i = Some a1 /\ atoms s !! j = Some a2 /\
        bonded a1 a2 /\
        b = {| bond_start := atom_vector a1; bond_end := atom_vector a2 |}.
Proof.
  exists (bond_list (atoms s)). split; [apply bonds_Return|].
  intros b. apply in_bond_list.
Qed.

(** ** No bond on a slab of a tabulated metal *)

Lemma rem_small x y : 0 <= x < y -> rem x y = x.
Proof.
  intros [Hx Hy]. unfold rem, trunc.
  assert (Hq : 0 <= x / y < 1).
  { split.
    - apply Rmult_le_pos; [exact Hx|]. apply Rlt_le, Rinv_0_lt_compat. lra.
    - apply Rmult_lt_reg_r with y; [lra|].
      unfold Rdiv. rewrite Rmult_assoc, Rinv_l by lra. lra. }
  destruct (decide (0 <= x / y)) as [_|Hn]; [|lra].
  rewrite <- (Int_part_spec (x / y) 0); simpl; lra.
Qed.

Lemma rem_wrap x y : 0 < y -> x = y -> rem x y = 0.
Proof.
  intros Hy ->. unfold rem, trunc.
  assert (Hq : y / y = 1) by (field; lra).
  rewrite Hq. destruct (decide (0 <= 1)) as [_|Hn]; [|lra].
  rewrite <- (Int_part_spec 1 1); simpl; lra.
Qed.

Lemma Rabs_square_le b t : 0 <= b -> b <= Rabs t -> b * b <= t * t.
Proof. unfold Rabs. destruct (Rcase_abs t); intros; nra. Qed.

(** Two points that are far apart along one axis are far apart. *)
Lemma distance_at_least (u v : Vector3) b :
  0 <= b ->
  b <= Rabs (u.1.1 - v.1.1) \/ b <= Rabs (u.1.2 - v.1.2) \/ b <= Rabs (u.2 - v.2) ->
  b <= Vector3_distanceTo u v.
Proof.
  destruct u as [[ux uy] uz], v as [[vx vy] vz]. simpl. intros Hb H.
  rewrite <- (sqrt_square b Hb). apply sqrt_le_1_alt.
  pose proof (Rle_0_sqr (ux - vx)). pose proof (Rle_0_sqr (uy - vy)).
  pose proof (Rle_0_sqr (uz - vz)). unfold Rsqr in *.
  destruct H as [H|[H|H]]; apply (Rabs_square_le b _ Hb) in H; lra.
Qed.

(** The radius of a tabulated metal, against its lattice constant. *)
Lemma metal_radius e p :
  ELEMENT_PROPERTIES !! e = Some p ->
  exists r, ATOMIC_RADII !! e = Some r /\ 0 < r /\ 1.25 * r < latticeConstant p / 2.
Proof.
  intros He. apply elem_of_list_to_map_2 in He.
  repeat (apply elem_of_cons in He as [He|He];
          [injection He as -> ->; eexists; split; [reflexivity|simpl; lra]|]).
  inversion He.
Qed.

Lemma in_slab_cells_id nz ny nx c cell atom :
  In atom (slab_cells nz ny nx c cell) ->
  exists k j i, (k < nz)%nat /\ (j < ny)%nat /\ (i < nx)%nat /\
                In atom (cell k j i (k * (ny * nx * c) + j * (nx * c) + i * c)%nat).
Proof.
  unfold slab_cells. intros H.
  apply in_flat_map in H as (k & Hk & H).
  apply in_flat_map in H as (j & Hj & H).
  apply in_flat_map in H as (i & Hi & H).
  apply in_seq in Hk, Hj, Hi.
  exists k, j, i. repeat split; [lia|lia|lia|exact H].
Qed.

Lemma INR_apart (k k' : nat) : k <> k' -> 1 <= Rabs (INR k - INR k').
Proof.
  intros Hk. unfold Rabs.
  assert (H : (S k <= k' \/ S k' <= k)%nat) by lia.
  destruct H as [H|H]; apply le_INR in H; rewrite S_INR in H;
    destruct (Rcase_abs _); lra.
Qed.

Lemma sqrt_2_bounds : 1 < sqrt 2 < 2.
Proof.
  split.
  - rewrite <- sqrt_1 at 1. apply sqrt_lt_1; lra.
  - replace 2 with (sqrt (2 * 2)) at 2 by (apply sqrt_square; lra).
    apply sqrt_lt_1; lra.
Qed.

Lemma sqrt_6_lower : 2 < sqrt 6.
Proof.
  replace 2 with (sqrt (2 * 2)) at 1 by (apply sqrt_square; lra).
  apply sqrt_lt_1; lra.
Qed.

Ltac Rabs_goal :=
  unfold Rabs;
  repeat match goal with
         | |- context [Rcase_abs ?t] => destruct (Rcase_abs t)
         end;
  first [lra | nra].

(** Two atoms of the other-termination slab are at least [a / 2] apart
    along one axis. *)
Lemma fcc100_separated e a a1 a2 :
  0 < a ->
  In a1 (fst (fcc100 e a)) -> In a2 (fst (fcc100 e a)) -> id a1 <> id a2 ->
  a / 2 <= Rabs (x a1 - x a2) \/ a / 2 <= Rabs (y a1 - y a2) \/
  a / 2 <= Rabs (z a1 - z a2).
Proof.
  intros Ha H1 H2 Hid. rewrite fcc100_cells in H1, H2.
  apply in_slab_cells_id in H1 as (k & j & i & Hk & Hj & Hi & H1).
  apply in_slab_cells_id in H2 as (k' & j' & i' & Hk' & Hj' & Hi' & H2).
  unfold fcc100_cell in H1, H2. cbv zeta in H1, H2.
  destruct H1 as [<-|[]]. destruct H2 as [<-|[]].
  cbn [x y z id createAtom] in *.
  pose proof sqrt_2_bounds as Hs2.
  assert (Hd : a / 2 <= a / sqrt 2).
  { assert (Hsplit : a = a / sqrt 2 * sqrt 2) by (field; lra).
    set (d := a / sqrt 2) in *. nra. }
  set (d := a / sqrt 2) in *.
  destruct (decide (k = k')) as [->|Hkk].
  - destruct (decide (j = j')) as [->|Hjj].
    + assert (Hii : i <> i') by (intros ->; apply Hid; reflexivity).
      left. pose proof (INR_apart i i' Hii) as Hap.
      destruct (k' mod 2 =? 1)%nat;
        [replace (INR i * d + d / 2 - (INR i' * d + d / 2))
           with ((INR i - INR i') * d) by ring
        |replace (INR i * d - INR i' * d) with ((INR i - INR i') * d) by ring];
        rewrite Rabs_mult, (Rabs_pos_eq d) by lra;
        pose proof (Rabs_pos (INR i - INR i')); nra.
    + right. left. pose proof (INR_apart j j' Hjj) as Hap.
      destruct (k' mod 2 =? 1)%nat;
        [replace (INR j * d + d / 2 - (INR j' * d + d / 2))
           with ((INR j - INR j') * d) by ring
        |replace (INR j * d - INR j' * d) with ((INR j - INR j') * d) by ring];
        rewrite Rabs_mult, (Rabs_pos_eq d) by lra;
        pose proof (Rabs_pos (INR j - INR j')); nra.
  - right. right. pose proof (INR_apart k k' Hkk) as Hap.
    replace (INR k * (a / 2) - INR k' * (a / 2))
      with ((INR k - INR k') * (a / 2)) by ring.
    rewrite Rabs_mult, (Rabs_pos_eq (a / 2)) by lra.
    pose proof (Rabs_pos (INR k - INR k')). nra.
Qed.

Ltac rem_eval :=
  repeat match goal with
         | |- context [rem ?u ?v] =>
             first [ rewrite (rem_small u v) by (simpl; lra)
                   | rewrite (rem_wrap u v) by (simpl; lra) ]
         end.

Lemma INR_scaled_apart (j j' : nat) (d : R) :
  0 < d -> j <> j' -> d <= Rabs (INR j * d - INR j' * d).
Proof.
  intros Hd Hj. pose proof (INR_apart j j' Hj) as Hap.
  replace (INR j * d - INR j' * d) with ((INR j - INR j') * d) by ring.
  rewrite Rabs_mult, (Rabs_pos_eq d) by lra.
  pose proof (Rabs_pos (INR j - INR j')). nra.
Qed.

Lemma small_index (i : nat) : (i < 3)%nat -> i = 0%nat \/ i = 1%nat \/ i = 2%nat.
Proof. lia. Qed.

(** Two atoms of the (111) slab are at least [a / 2] apart along one axis. *)
Lemma fcc111_separated e a a1 a2 :
  0 < a ->
  In a1 (fst (fcc111 e a)) -> In a2 (fst (fcc111 e a)) -> id a1 <> id a2 ->
  a / 2 <= Rabs (x a1 - x a2) \/ a / 2 <= Rabs (y a1 - y a2) \/
  a / 2 <= Rabs (z a1 - z a2).
Proof.
  intros Ha H1 H2 Hid. rewrite fcc111_cells in H1, H2.
  apply in_slab_cells_id in H1 as (k & j & i & Hk & Hj & Hi & H1).
  apply in_slab_cells_id in H2 as (k' & j' & i' & Hk' & Hj' & Hi' & H2).
  unfold fcc111_cell in H1, H2. cbv zeta in H1, H2.
  pose proof sqrt_2_bounds as Hs2. pose proof sqrt_3_lt_2 as Hs3.
  pose proof sqrt_6_lower as Hs6.
  assert (Hs3' : 0 < sqrt 3) by (apply sqrt_pos_lt; lra).
  assert (Hxd : a / 2 <= a / sqrt 2).
  { assert (Hsplit : a = a / sqrt 2 * sqrt 2) by (field; lra).
    set (d := a / sqrt 2) in *. nra. }
  assert (Hzd : a / 2 <= a / sqrt 3).
  { assert (Hsplit : a = a / sqrt 3 * sqrt 3) by (field; lra).
    set (d := a / sqrt 3) in *. nra. }
  assert (Hyd : a / 2 <= a * sqrt 6 / 2 / 2) by nra.
  replace (INR 3) with 3 in * by (simpl; lra).
  set (xd := a / sqrt 2) in *. set (yd := a * sqrt 6 / 2) in *.
  set (zd := a / sqrt 3) in *.
  destruct (decide (k = k')) as [->|Hkk].
  2:{ right. right.
      pose proof (INR_scaled_apart k k' zd ltac:(lra) Hkk) as Hap.
      destruct H1 as [<-|[<-|[]]]; destruct H2 as [<-|[<-|[]]];
        cbn [z createAtom]; lra. }
  pose proof (INR_below j 3 Hj) as Hjb. pose proof (INR_below j' 3 Hj') as Hjb'.
  replace (INR 3) with 3 in * by (simpl; lra).
  assert (Hjy : 0 <= INR j * yd <= 2 * yd) by nra.
  assert (Hjy' : 0 <= INR j' * yd <= 2 * yd) by nra.
  assert (Hy : j = j' \/ yd <= Rabs (INR j * yd - INR j' * yd)).
  { destruct (decide (j = j')) as [->|Hjj]; [left; reflexivity|right].
    apply INR_scaled_apart; [lra|exact Hjj]. }
  destruct (decide (j = j')) as [->|Hjj].
  - (* same row: the two atoms differ by their place in the cell or by i *)
    destruct H1 as [<-|[<-|[]]]; destruct H2 as [<-|[<-|[]]];
      cbn [x y z id createAtom] in *.
    + assert (Hii : i <> i') by (intros ->; apply Hid; reflexivity).
      left. destruct (small_index i Hi) as [-> | [-> | ->]];
        destruct (small_index i' Hi') as [-> | [-> | ->]]; try congruence;
        destruct (k' mod 3 =? 1)%nat; destruct (k' mod 3 =? 2)%nat;
        simpl INR; rem_eval; Rabs_goal.
    + right. left.
      destruct (k' mod 3 =? 1)%nat; destruct (k' mod 3 =? 2)%nat;
        set (jy := INR j' * yd) in *; rem_eval; Rabs_goal.
    + right. left.
      destruct (k' mod 3 =? 1)%nat; destruct (k' mod 3 =? 2)%nat;
        set (jy := INR j' * yd) in *; rem_eval; Rabs_goal.
    + assert (Hii : i <> i') by (intros ->; apply Hid; reflexivity).
      left. destruct (small_index i Hi) as [-> | [-> | ->]];
        destruct (small_index i' Hi') as [-> | [-> | ->]]; try congruence;
        destruct (k' mod 3 =? 1)%nat; destruct (k' mod 3 =? 2)%nat;
        simpl INR; rem_eval; Rabs_goal.
  - (* different rows *)
    right. left. destruct Hy as [Hy|Hy]; [contradiction|].
    set (jy := INR j * yd) in *. set (jy' := INR j' * yd) in *.
    assert (Hcase : yd <= jy - jy' \/ yd <= jy' - jy).
    { revert Hy. unfold Rabs. destruct (Rcase_abs _); lra. }
    destruct H1 as [<-|[<-|[]]]; destruct H2 as [<-|[<-|[]]];
      cbn [x y z id createAtom] in *;
      destruct (k' mod 3 =? 1)%nat; destruct (k' mod 3 =? 2)%nat;
      rem_eval; Rabs_goal.
Qed.

(** X19: The viewer draws no bond on a slab of a tabulated metal: whatever the
    query, if its element is a key of the physical table, the atoms of the
    built slab are too far apart for the threshold of the viewer. *)
Theorem no_bond_on_metal_slab q n :
  is_Some (ELEMENT_PROPERTIES !! parse_element q) ->
  bonds (generateSlabStructure q) n = Return [] n.
Proof.
  intros [p Hp]. rewrite bonds_Return.
  destruct (bond_list (atoms (generateSlabStructure q))) as [|b l] eqn:Hl;
    [reflexivity|exfalso].
  assert (Hb : In b (bond_list (atoms (generateSlabStructure q)))).
  { rewrite Hl. left. reflexivity. }
  apply in_bond_list in Hb as (i & j & a1 & a2 & Hij & H1 & H2 & [_ Hlt] & _).
  destruct (metal_radius _ _ Hp) as (r & Hr & Hr0 & Hbound).
  assert (Ha : latticeConstant (props_or_Cu (parse_element q)) = latticeConstant p).
  { unfold props_or_Cu, lookup_or_Cu, Object_get. rewrite Hp. reflexivity. }
  pose proof (latticeConstant_pos q) as Hpos.
  destruct (built_atom_layered q) as (pl & sp & _ & _ & Hat). simpl in Hat.
  destruct (Hat i a1 H1) as [Hid1 _]. destruct (Hat j a2 H2) as [Hid2 _].
  assert (Hin1 : In a1 (atoms (generateSlabStructure q))).
  { apply list_elem_of_In. eapply list_elem_of_lookup_2. exact H1. }
  assert (Hin2 : In a2 (atoms (generateSlabStructure q))).
  { apply list_elem_of_In. eapply list_elem_of_lookup_2. exact H2. }
  assert (Hthr : bond_threshold a1 a2 = 1.25 * r).
  { destruct (built_atom_createAtom q a1 Hin1) as (x1 & y1 & z1 & id1 & ->).
    destruct (built_atom_createAtom q a2 Hin2) as (x2 & y2 & z2 & id2 & ->).
    unfold bond_threshold, createAtom, ATOM_SCALE, BOND_TOLERANCE.
    cbn [radius]. rewrite Hr. unfold or_number.
    destruct (decide (r = 0)); [lra|].
    destruct (decide (r = 0)); lra. }
  assert (Hsep : latticeConstant p / 2
                 <= Vector3_distanceTo (atom_vector a1) (atom_vector a2)).
  { apply distance_at_least; [lra|]. unfold atom_vector. cbn [fst snd].
    rewrite <- Ha. rewrite generateSlabStructure_atoms in Hin1, Hin2.
    cbv zeta in Hin1, Hin2.
    destruct (decide (parse_face q = "111"%string)).
    - apply (fcc111_separated (parse_element q)); [exact Hpos|assumption..|lia].
    - apply (fcc100_separated (parse_element q)); [exact Hpos|assumption..|lia]. }
  rewrite Hthr in Hlt. lra.
Qed.

Lemma no_bond_on_metal_slab_witness :
  bonds (generateSlabStructure "Au(111)") 0%nat = Return [] 0%nat.
Proof.
  apply (no_bond_on_metal_slab "Au(111)" 0%nat).
  eexists. reflexivity.
Defined.

(** * Properties of the legacy post-processing *)

Lemma CPK_COLORS_X :
  Object_get CPK_COLORS "X" = Some (Own "#FF00FF"%string).
Proof. reflexivity. Qed.

Lemma ATOMIC_RADII_X : Object_get ATOMIC_RADII "X" = Some (Own 1.0).
Proof. reflexivity. Qed.

(** X20: The post-processing of the legacy service and [createAtom]: the
    atom made from the entry of index [i] gets the id [i] and the element and
    position of the entry.  Unless the element is the name of a property
    objects inherit, it gets the radius [createAtom] would give it and the
    same colour up to the case of the hexadecimal digits, [#FF00FF] for an
    unknown element where [createAtom] gives [#ff00ff].  When the element is
    such a name, its colour and its radius are the built-in of that name,
    not the entries stored under X. *)
Theorem legacy_atoms_match_createAtom raw i a :
  raw !! i = Some a ->
  let built := createAtom (raw_element a) (raw_x a) (raw_y a) (raw_z a) i in
  exists atom,
    display_atoms raw !! i = Some atom /\
    length (display_atoms raw) = length raw /\
    display_id atom = id built /\ display_element atom = element built /\
    (display_x atom, display_y atom, display_z atom) = position built /\
    (inherited (raw_element a) = false ->
     display_radius atom = Own <$> radius built /\
     (exists c, display_color atom = Some (Own c) /\
                Some (uppercase c) = uppercase <$> color built) /\
     (CPK_COLORS !! raw_element a = None ->
      display_color atom = Some (Own "#FF00FF"%string) /\
      color built = Some "#ff00ff"%string)) /\
    (inherited (raw_element a) = true ->
     display_color atom = Some (Builtin (raw_element a)) /\
     display_radius atom = Some (Builtin (raw_element a))).
Proof.
  intros Hi. cbv zeta. exists (display_atom i a).
  unfold display_atoms. rewrite list_lookup_imap, Hi, length_imap.
  split; [reflexivity|]. split; [reflexivity|].
  unfold display_atom, createAtom, position.
  cbn [id element x y z radius color display_id display_element display_x
       display_y display_z display_color display_radius].
  split; [reflexivity|]. split; [reflexivity|]. split; [reflexivity|].
  unfold or_X. split.
  - intros Hown. rewrite CPK_COLORS_X, ATOMIC_RADII_X.
    rewrite !(Object_get_own _ _ Hown). unfold or_number, or_string.
    split; [|split].
    + destruct (ATOMIC_RADII !! raw_element a) as [r|];
        cbn [fmap option_fmap option_map]; [|reflexivity].
      destruct (decide (r = 0)); reflexivity.
    + destruct (CPK_COLORS !! raw_element a) as [c|];
        cbn [fmap option_fmap option_map].
      * destruct (decide (c = ""%string)); eexists; split; reflexivity.
      * eexists. split; reflexivity.
    + intros ->. split; reflexivity.
  - intros Hinh. rewrite CPK_COLORS_X, ATOMIC_RADII_X. unfold Object_get.
    destruct (inherited_not_a_key _ Hinh) as (_ & -> & ->).
    rewrite Hinh. split; reflexivity.
Qed.

Lemma legacy_atoms_match_createAtom_witness :
  exists atom,
    display_atoms [ {| raw_element := "Zz"; raw_x := 0; raw_y := 0; raw_z := 0 |} ]
    !! 0%nat = Some atom /\
    display_color atom = Some (Own "#FF00FF"%string).
Proof.
  destruct (legacy_atoms_match_createAtom
              [ {| raw_element := "Zz"; raw_x := 0; raw_y := 0; raw_z := 0 |} ]
              0%nat
              {| raw_element := "Zz"; raw_x := 0; raw_y := 0; raw_z := 0 |}
              eq_refl)
    as (atom & Hatom & _ & _ & _ & _ & Hown & _).
  exists atom. split; [exact Hatom|].
  destruct (Hown eq_refl) as (_ & _ & Hcolor).
  apply Hcolor. reflexivity.
Defined.
